(** * A Cloud-Optimized GeoTIFF reader: the IFD parser, the tile locator and
      the image view, embedded from the TypeScript sources.

    - [Num], [JsVal], [Outcome]: the JavaScript values the code computes
      with (IEEE 754 doubles from [SpecFloat], arrays, strings, the lazy
      closure of [readIfd]) and the results of a call.
    - [CogSource] and the [tif] tables: the byte source and the static
      registries; their files are not among the sources.
    - [CogLayer]: [fetchHeader], [processIfd], [readIfd], [getTileRaw].
    - [WithFacade], [NoFacade]: the two [CogTifImage] classes. *)

From Stdlib Require Import ZArith Lia SpecFloat Ascii String.
From Stdlib Require DecimalString DecimalZ DecimalFacts DecimalPos.
From stdpp Require Import gmap strings list.

Set Warnings "-register-all".

Local Open Scope Z_scope.

(** ** JavaScript numbers: binary64 *)

Module Num.

Definition float64 : Type := spec_float.

Definition prec : Z := 53.
Definition emax : Z := 1024.

Definition nan : float64 := S754_nan.
Definition zero : float64 := S754_zero false.

(** An integer as a number; exact below 2^53 in magnitude. *)
Definition of_Z (z : Z) : float64 := binary_normalize prec emax z 0 false.

Definition add : float64 -> float64 -> float64 := SFadd prec emax.
Definition mul : float64 -> float64 -> float64 := SFmul prec emax.
Definition div : float64 -> float64 -> float64 := SFdiv prec emax.
Definition neg : float64 -> float64 := SFopp.
Definition ltb : float64 -> float64 -> bool := SFltb.
Definition leb : float64 -> float64 -> bool := SFleb.
Definition eqb : float64 -> float64 -> bool := SFeqb.

Definition is_nan (x : float64) : bool :=
  match x with S754_nan => true | _ => false end.

Definition is_neg_zero (x : float64) : bool :=
  match x with S754_zero true => true | _ => false end.

(** Neither NaN nor an infinity. *)
Definition is_finite (x : float64) : bool :=
  match x with S754_zero _ | S754_finite _ _ _ => true | _ => false end.

(** The integer a number denotes, when it denotes one. *)
Definition to_Z (x : float64) : option Z :=
  match x with
  | S754_zero _ => Some 0
  | S754_finite s m e =>
      if 0 <=? e then Some (cond_Zopp s (Z.pos m * 2 ^ e))
      else if Z.pos m mod 2 ^ (- e) =? 0
           then Some (cond_Zopp s (Z.pos m / 2 ^ (- e)))
           else None
  | _ => None
  end.

(** [Math.ceil]. *)
Definition ceil (x : float64) : float64 :=
  match x with
  | S754_finite s m e =>
      if 0 <=? e then x
      else
        let q := Z.pos m / 2 ^ (- e) in
        let r := Z.pos m mod 2 ^ (- e) in
        if s then binary_normalize prec emax (- q) 0 true
        else binary_normalize prec emax (if r =? 0 then q else q + 1) 0 false
  | _ => x
  end.

(** [Math.min] and [Math.max] of two numbers: NaN when either is NaN, and
    -0 below +0. *)
Definition min (a b : float64) : float64 :=
  if is_nan a || is_nan b then nan
  else if ltb a b then a
  else if ltb b a then b
  else if is_neg_zero a then a else b.

Definition max (a b : float64) : float64 :=
  if is_nan a || is_nan b then nan
  else if ltb a b then b
  else if ltb b a then a
  else if is_neg_zero a then b else a.

(** Decoding of the IEEE 754 bit patterns stored in a file. *)
Definition of_bits64 (n : Z) : float64 :=
  let s := Z.testbit n 63 in
  let e := (n / 2 ^ 52) mod 2 ^ 11 in
  let m := n mod 2 ^ 52 in
  if e =? 0 then
    (if m =? 0 then S754_zero s else S754_finite s (Z.to_pos m) (-1074))
  else if e =? 2047 then
    (if m =? 0 then S754_infinity s else S754_nan)
  else S754_finite s (Z.to_pos (m + 2 ^ 52)) (e - 1075).

Definition of_bits32 (n : Z) : float64 :=
  let s := Z.testbit n 31 in
  let e := (n / 2 ^ 23) mod 2 ^ 8 in
  let m := n mod 2 ^ 23 in
  if e =? 0 then binary_normalize prec emax (cond_Zopp s m) (-149) s
  else if e =? 255 then
    (if m =? 0 then S754_infinity s else S754_nan)
  else binary_normalize prec emax (cond_Zopp s (m + 2 ^ 23)) (e - 150) s.

End Num.

Abbreviation float64 := Num.float64.

(** ** Values and results *)

(** The values the reader handles: what [readType] decodes (numbers, strings
    for ASCII tags, arrays), [undefined] and [null], and the closure
    [() => this.source.readType(valueOffset, tagType, count)] that
    [readIfd] stores for a value it could not read yet. *)
Inductive JsVal : Type :=
| JUndefined
| JNull
| JNum (n : float64)
| JStr (s : string)
| JArr (elems : list JsVal)
| JFun (valueOffset tagType count : Z).

(** The errors the code throws, named after their messages, and the
    failures of the byte source. *)
Inductive Error : Type :=
| OnlyLittleEndian                      (* 'Only little endian is supported' *)
| OnlyTiffSupported (version : Z)       (* `Only tiff supported version:${version}` *)
| OffsetOutOfRangeHeader                (* 'Offset out of range' *)
| MissingZ (z : float64)                (* `Missing z: ${z}` *)
| TileDoesNotExist (x y z : float64)    (* `Tile ${x} ${y} ${z} does not exist` *)
| NoModelTiepoint                       (* 'Tiff image does not have a ModelTiepoint' *)
| NoModelPixelScale                     (* 'Tiff image does not have a ModelPixelScale' *)
| TypeError                             (* property read on undefined or null *)
| OffsetOutOfRange (offset : Z)         (* byte source *)
| ShortRead (offset want got : Z).      (* byte source *)

(** The result of a call. [Uncovered] marks a run that needs a part of the
    language the development leaves out: the conversion of a string or an
    object to a number or to a property key, string concatenation, and a
    byte-source call whose offset or length is not a natural number.
    [OutOfFuel] is the bound on the recursion along the IFD chain. *)
Inductive Outcome (A : Type) : Type :=
| Ok (a : A)
| Throw (e : Error)
| Uncovered
| OutOfFuel.

Arguments Ok {A} a.
Arguments Throw {A} e.
Arguments Uncovered {A}.
Arguments OutOfFuel {A}.

Definition obind {A B} (o : Outcome A) (f : A -> Outcome B) : Outcome B :=
  match o with
  | Ok a => f a
  | Throw e => Throw e
  | Uncovered => Uncovered
  | OutOfFuel => OutOfFuel
  end.

(** Code that awaits the byte source threads a state [S]. *)
Definition M (S A : Type) : Type := S -> Outcome (A * S).

Definition ret {S A} (a : A) : M S A := fun s => Ok (a, s).
Definition bind {S A B} (m : M S A) (f : A -> M S B) : M S B :=
  fun s => obind (m s) (fun '(a, s') => f a s').
Definition throw {S A} (e : Error) : M S A := fun _ => Throw e.
Definition pure_of {S A} (o : Outcome A) : M S A :=
  fun s => obind o (fun a => Ok (a, s)).
Definition get {S} : M S S := fun s => Ok (s, s).
Definition modify {S} (f : S -> S) : M S unit := fun s => Ok (tt, f s).

Notation "'let!' x ':=' m 'in' k" := (bind m (fun x => k))
  (at level 10, x pattern, m at level 100, k at level 200).
Notation "'let?' x ':=' o 'in' k" := (obind o (fun x => k))
  (at level 10, x pattern, o at level 100, k at level 200).

Module JS.

(** [v == null]. *)
Definition nullish (v : JsVal) : bool :=
  match v with JUndefined | JNull => true | _ => false end.

(** Truthiness, for [tiePoints && ...]. *)
Definition truthy (v : JsVal) : bool :=
  match v with
  | JUndefined | JNull => false
  | JNum n =>
      match n with S754_zero _ | S754_nan => false | _ => true end
  | JStr s => negb (String.eqb s "")
  | JArr _ | JFun _ _ _ => true
  end.

(** [typeof v === 'number']. *)
Definition is_number (v : JsVal) : bool :=
  match v with JNum _ => true | _ => false end.

(** ToNumber on the primitives. *)
Definition ToNumber (v : JsVal) : Outcome float64 :=
  match v with
  | JUndefined => Ok Num.nan
  | JNull => Ok Num.zero
  | JNum n => Ok n
  | JStr _ | JArr _ | JFun _ _ _ => Uncovered
  end.

(** [a * b], [a / b], [- a] and the numeric comparison [a > b]. *)
Definition mul (a b : JsVal) : Outcome float64 :=
  let? x := ToNumber a in let? y := ToNumber b in Ok (Num.mul x y).
Definition div (a b : JsVal) : Outcome float64 :=
  let? x := ToNumber a in let? y := ToNumber b in Ok (Num.div x y).
Definition neg (a : JsVal) : Outcome float64 :=
  let? x := ToNumber a in Ok (Num.neg x).

(** [a + b]: numeric addition unless an operand is a string or an object. *)
Definition add (a b : JsVal) : Outcome float64 :=
  let? x := ToNumber a in let? y := ToNumber b in Ok (Num.add x y).

(** [Math.min(a, b)] and [Math.max(a, b)]. *)
Definition Math_min (a b : JsVal) : Outcome float64 :=
  let? x := ToNumber a in let? y := ToNumber b in Ok (Num.min x y).
Definition Math_max (a b : JsVal) : Outcome float64 :=
  let? x := ToNumber a in let? y := ToNumber b in Ok (Num.max x y).

(** The [i]-th character of a string, as a one-character string. *)
Definition char_at (s : string) (i : nat) : JsVal :=
  match String.get i s with
  | Some c => JStr (String c EmptyString)
  | None => JUndefined
  end.

(** [o.length]. A function has the number of its parameters as length, 0
    for the closure of [readIfd]; a number has no such property. *)
Definition length (o : JsVal) : Outcome JsVal :=
  match o with
  | JUndefined | JNull => Throw TypeError
  | JArr l => Ok (JNum (Num.of_Z (Z.of_nat (List.length l))))
  | JStr s => Ok (JNum (Num.of_Z (Z.of_nat (String.length s))))
  | JFun _ _ _ => Ok (JNum (Num.of_Z 0))
  | JNum _ => Ok JUndefined
  end.

(** [o[k]] for a number [k]. The key of the property is the canonical
    string of [k], so an element is found exactly when [k] is a natural
    number below the length (-0 is the key "0"). *)
Definition index (o : JsVal) (k : float64) : Outcome JsVal :=
  match o with
  | JUndefined | JNull => Throw TypeError
  | JArr l =>
      match Num.to_Z k with
      | Some i => if 0 <=? i then Ok (default JUndefined (l !! Z.to_nat i))
                  else Ok JUndefined
      | None => Ok JUndefined
      end
  | JStr s =>
      match Num.to_Z k with
      | Some i => if 0 <=? i then Ok (char_at s (Z.to_nat i)) else Ok JUndefined
      | None => Ok JUndefined
      end
  | JNum _ | JFun _ _ _ => Ok JUndefined
  end.

(** [o.slice(start)] for a natural [start] within the length. *)
Definition slice (o : JsVal) (start : nat) : Outcome JsVal :=
  match o with
  | JArr l => Ok (JArr (drop start l))
  | JStr s => Ok (JStr (String.substring start (String.length s - start) s))
  | _ => Throw TypeError
  end.

(** [a > b] on numbers. *)
Definition gt (a b : float64) : bool := Num.ltb b a.

End JS.

(** ** The static registries of [./tif] *)

Module tif.

(** Modelled from the spec: the table [TIFF_TAG] (tag code to name) of
    [./tif] is not among the sources; these are the supported tags of the
    spec's section 6, under the names [getTileRaw] reads them by. A code
    outside the table gives [undefined]. *)
Definition TIFF_TAG (tagCode : Z) : option string :=
  if tagCode =? 256 then Some "ImageWidth"%string
  else if tagCode =? 257 then Some "ImageLength"%string
  else if tagCode =? 258 then Some "BitsPerSample"%string
  else if tagCode =? 259 then Some "Compression"%string
  else if tagCode =? 262 then Some "PhotometricInterpretation"%string
  else if tagCode =? 277 then Some "SamplesPerPixel"%string
  else if tagCode =? 322 then Some "TileWidth"%string
  else if tagCode =? 323 then Some "TileLength"%string
  else if tagCode =? 324 then Some "TileOffsets"%string
  else if tagCode =? 325 then Some "TileByteCounts"%string
  else if tagCode =? 339 then Some "SampleFormat"%string
  else if tagCode =? 33550 then Some "ModelPixelScale"%string
  else if tagCode =? 33922 then Some "ModelTiepoint"%string
  else if tagCode =? 34735 then Some "GeoKeyDirectory"%string
  else if tagCode =? 34736 then Some "GeoDoubleParams"%string
  else if tagCode =? 34737 then Some "GeoAsciiParams"%string
  else None.

(** Modelled from the spec: the tag types of the spec's section 3, which
    [./tif] is missing for; the twelve TIFF field types in the order of
    their codes 1 to 12. *)
Inductive TagType : Type :=
| BYTE | ASCII | SHORT | LONG | RATIONAL | SBYTE
| UNDEFINED | SSHORT | SLONG | SRATIONAL | FLOAT | DOUBLE.

(** Modelled from the spec: the type of a type code ([TIFF_TAG_TYPE]). *)
Definition tagTypeOf (tagType : Z) : option TagType :=
  if tagType =? 1 then Some BYTE
  else if tagType =? 2 then Some ASCII
  else if tagType =? 3 then Some SHORT
  else if tagType =? 4 then Some LONG
  else if tagType =? 5 then Some RATIONAL
  else if tagType =? 6 then Some SBYTE
  else if tagType =? 7 then Some UNDEFINED
  else if tagType =? 8 then Some SSHORT
  else if tagType =? 9 then Some SLONG
  else if tagType =? 10 then Some SRATIONAL
  else if tagType =? 11 then Some FLOAT
  else if tagType =? 12 then Some DOUBLE
  else None.

(** Modelled from the spec: the [type_size] of each type. *)
Definition sizeOf (t : TagType) : Z :=
  match t with
  | BYTE | ASCII | SBYTE | UNDEFINED => 1
  | SHORT | SSHORT => 2
  | LONG | SLONG | FLOAT => 4
  | RATIONAL | SRATIONAL | DOUBLE => 8
  end.

(** Modelled from the spec: the table [TIFF_SIZE] of [./tif] is not among
    the sources; [TIFF_SIZE[tagType].length] is the [type_size] of the
    spec's section 3. A type code outside the table gives [undefined]. *)
Definition TIFF_SIZE (tagType : Z) : option Z := sizeOf <$> tagTypeOf tagType.

(** Modelled from the spec: the table of compression codes ([TIFF_COMPRESSION]
    in [getTileRaw], [TiffCompression] in the image classes) is not among
    the sources; these are the entries of the spec's section 6. *)
Definition compressionTable (code : Z) : option string :=
  if code =? 1 then Some "none"%string
  else if code =? 5 then Some "image/x-lzw"%string
  else if code =? 6 then Some "image/jpeg"%string
  else if code =? 7 then Some "image/jpeg"%string
  else if code =? 8 then Some "image/deflate"%string
  else if code =? 34712 then Some "image/jp2"%string
  else if code =? 50001 then Some "image/webp"%string
  else None.

(** Modelled from the spec: [TIFF_COMPRESSION[key]], a property read on the
    missing table. A number that is no key of the table, [undefined] and
    [null] give [undefined], as for every object. *)
Definition TIFF_COMPRESSION (key : JsVal) : Outcome JsVal :=
  match key with
  | JNum n =>
      match Num.to_Z n with
      | Some code =>
          match compressionTable code with
          | Some mime => Ok (JStr mime)
          | None => Ok JUndefined
          end
      | None => Ok JUndefined
      end
  | JUndefined | JNull => Ok JUndefined
  | JStr _ | JArr _ | JFun _ _ _ => Uncovered
  end.

(** The enum [TiffTag] of [./read/tif] is not among the sources; the codes
    are those of the spec's section 6. [ImageHeight] and [TileHeight] are
    the names the image classes use for the tags the spec calls
    ImageLength (257) and TileLength (323). *)
Module TiffTag.
(** Modelled from the spec: [TiffTag.ImageWidth], missing with [./read/tif]. *)
Definition ImageWidth : Z := 256.
(** Modelled from the spec: [TiffTag.ImageHeight], the spec's ImageLength. *)
Definition ImageHeight : Z := 257.
(** Modelled from the spec: [TiffTag.Compression], missing with [./read/tif]. *)
Definition Compression : Z := 259.
(** Modelled from the spec: [TiffTag.TileWidth], missing with [./read/tif]. *)
Definition TileWidth : Z := 322.
(** Modelled from the spec: [TiffTag.TileHeight], the spec's TileLength. *)
Definition TileHeight : Z := 323.
(** Modelled from the spec: [TiffTag.TileOffsets], missing with [./read/tif]. *)
Definition TileOffsets : Z := 324.
(** Modelled from the spec: [TiffTag.TileByteCounts], missing with [./read/tif]. *)
Definition TileByteCounts : Z := 325.
(** Modelled from the spec: [TiffTag.ModelPixelScale], missing with [./read/tif]. *)
Definition ModelPixelScale : Z := 33550.
(** Modelled from the spec: [TiffTag.ModelTiepoint], missing with [./read/tif]. *)
Definition ModelTiepoint : Z := 33922.
End TiffTag.

End tif.

(** ** The byte source *)

(** Modelled from the spec: the class [CogSource] ([./cog.source]) is not
    among the sources. This is the Byte Source of the spec's sections 3 and
    4.A with the Typed Reader of 4.B: a backing store served through
    fixed-size chunks that are fetched on first use and then stay cached.
    Awaited calls run one after the other, so a chunk is either absent from
    the table or ready. [fetched] records the chunk ids requested from the
    backing store, oldest first. *)
Record CogSource : Type := mkSource {
  backing : list Z;             (* the bytes of the file *)
  chunkSize : Z;
  chunks : gmap Z (list Z);     (* the chunk table: id to cached bytes *)
  fetched : list Z
}.

(** The operations of the missing class [CogSource], each from the spec's
    sections 4.A and 4.B. *)
Module Source.

(** Modelled from the spec: a source of the missing [CogSource] over the
    bytes of a file, with an empty chunk table. *)
Definition open (bytes : list Z) (chunkSize : Z) : CogSource :=
  mkSource bytes chunkSize ∅ [].

(** Modelled from the spec: [source_length] of the missing [CogSource]. *)
Definition sourceLength (s : CogSource) : Z := Z.of_nat (length (backing s)).

(** Modelled from the spec: the chunks a read of [len] bytes at [offset] of
    the missing [CogSource] covers,
    [offset/chunk_size .. (offset+len-1)/chunk_size]. *)
Definition covered (s : CogSource) (offset len : Z) : list Z :=
  if len <=? 0 then []
  else seqZ (offset / chunkSize s)
            ((offset + len - 1) / chunkSize s - offset / chunkSize s + 1).

(** Modelled from the spec: the state [ready] of a chunk of the missing
    [CogSource]. *)
Definition isReady (s : CogSource) (id : Z) : bool :=
  bool_decide (is_Some (chunks s !! id)).

(** Modelled from the spec: the range read of one chunk from the backing
    store of the missing [CogSource]; the final chunk may be shorter. *)
Definition chunkBytes (s : CogSource) (id : Z) : list Z :=
  take (Z.to_nat (chunkSize s)) (drop (Z.to_nat (id * chunkSize s)) (backing s)).

(** Modelled from the spec: a chunk of the missing [CogSource] is served
    from the table when ready and fetched when empty. *)
Definition fetchChunk (s : CogSource) (id : Z) : CogSource :=
  if isReady s id then s
  else mkSource (backing s) (chunkSize s)
                (<[id := chunkBytes s id]> (chunks s))
                (fetched s ++ [id]).

(** Modelled from the spec: the byte at [p] of the missing [CogSource],
    from the chunk that holds it. *)
Definition byteAt (s : CogSource) (p : Z) : option Z :=
  bs ← chunks s !! (p / chunkSize s); bs !! Z.to_nat (p mod chunkSize s).

(** Modelled from the spec: [has_bytes(offset, length?)] of the missing
    [CogSource], true iff all covered chunks are ready. Without a length,
    the chunk of [offset] is the one covered. *)
Definition hasBytes (offset : Z) (len : option Z) : M CogSource bool :=
  fun s => Ok (forallb (isReady s) (covered s offset (default 1 len)), s).

(** Modelled from the spec: [get_bytes(offset, length)] of the missing
    [CogSource]: fetch the chunks that are not ready, then stitch the bytes
    from the chunks. A read that leaves the file fails, with
    [OffsetOutOfRange] when it starts outside and [ShortRead] otherwise. *)
Definition getBytes (offset len : Z) : M CogSource (list Z) :=
  fun s =>
    if len <=? 0 then Ok ([], s)
    else if (offset <? 0) || (sourceLength s <=? offset)
    then Throw (OffsetOutOfRange offset)
    else if sourceLength s <? offset + len
    then Throw (ShortRead offset len (sourceLength s - offset))
    else
      let s' := foldl fetchChunk s (covered s offset len) in
      match mapM (byteAt s') (seqZ offset len) with
      | Some bs => Ok (bs, s')
      | None => Throw (ShortRead offset len 0)
      end.

(** Modelled from the spec: little-endian decoding in the missing
    [CogSource], the only byte order the reader accepts. *)
Definition le_uint (bs : list Z) : Z := foldr (fun b acc => b + 256 * acc) 0 bs.

(** Modelled from the spec: the signed reading of [bits] bits, for the
    signed types of the missing typed reader. *)
Definition to_signed (bits n : Z) : Z :=
  if n <? 2 ^ (bits - 1) then n else n - 2 ^ bits.

(** Modelled from the spec: [u16(offset)] of the missing [CogSource]. *)
Definition uint16 (offset : Z) : M CogSource Z :=
  let! bs := getBytes offset 2 in ret (le_uint bs).

(** Modelled from the spec: [u32(offset)] of the missing [CogSource]. *)
Definition uint32 (offset : Z) : M CogSource Z :=
  let! bs := getBytes offset 4 in ret (le_uint bs).

(** Modelled from the spec: the bytes of a value of the missing typed
    reader, cut in consecutive elements of [n] bytes. *)
Fixpoint groups (fuel n : nat) (bs : list Z) : list (list Z) :=
  match fuel with
  | O => []
  | S fuel' =>
      match bs with
      | [] => []
      | _ => take n bs :: groups fuel' n (drop n bs)
      end
  end.

(** Modelled from the spec: one element of a tag value in the missing
    typed reader. A rational is the pair of its numerator and
    denominator. *)
Definition decodeElement (t : tif.TagType) (bs : list Z) : JsVal :=
  match t with
  | tif.BYTE | tif.UNDEFINED | tif.SHORT | tif.LONG | tif.ASCII =>
      JNum (Num.of_Z (le_uint bs))
  | tif.SBYTE => JNum (Num.of_Z (to_signed 8 (le_uint bs)))
  | tif.SSHORT => JNum (Num.of_Z (to_signed 16 (le_uint bs)))
  | tif.SLONG => JNum (Num.of_Z (to_signed 32 (le_uint bs)))
  | tif.RATIONAL =>
      JArr [JNum (Num.of_Z (le_uint (take 4 bs)));
            JNum (Num.of_Z (le_uint (drop 4 bs)))]
  | tif.SRATIONAL =>
      JArr [JNum (Num.of_Z (to_signed 32 (le_uint (take 4 bs))));
            JNum (Num.of_Z (to_signed 32 (le_uint (drop 4 bs))))]
  | tif.FLOAT => JNum (Num.of_bits32 (le_uint bs))
  | tif.DOUBLE => JNum (Num.of_bits64 (le_uint bs))
  end.

(** Modelled from the spec: an ASCII value in the missing typed reader,
    the bytes up to the first NUL as a string. *)
Fixpoint asciiString (bs : list Z) : string :=
  match bs with
  | [] => EmptyString
  | b :: bs' =>
      if b =? 0 then EmptyString
      else String (ascii_of_N (Z.to_N b)) (asciiString bs')
  end.

(** Modelled from the spec: the result of [read_type] in the missing typed
    reader: a string for ASCII, the scalar when [count == 1], else the
    sequence. *)
Definition decodeValue (t : tif.TagType) (count : Z) (bs : list Z) : JsVal :=
  match t with
  | tif.ASCII => JStr (asciiString bs)
  | _ =>
      let elems := decodeElement t <$> groups (length bs) (Z.to_nat (tif.sizeOf t)) bs in
      if count =? 1 then default JUndefined (elems !! 0%nat) else JArr elems
  end.

(** Modelled from the spec: [read_type(offset, type, count)] of the missing
    [CogSource]: look up the size, read [count * type_size] bytes, decode. *)
Definition readType (offset tagType count : Z) : M CogSource JsVal :=
  match tif.tagTypeOf tagType with
  | None => throw TypeError
  | Some t =>
      let! bs := getBytes offset (count * tif.sizeOf t) in
      ret (decodeValue t count bs)
  end.

End Source.

(** ** [CogLayer]: header, IFD chain and tile locator *)

(** [Partial<CogImage>]: the object [readIfd] fills, keyed by tag name. *)
Abbreviation Image := (gmap string JsVal).

Record CogLayer : Type := mkLayer {
  source : CogSource;
  version : option Z;             (* [None] until [fetchHeader] sets it *)
  isLittleEndian : option bool;
  isBigTiff : bool;
  images : list Image
}.

Module Layer.

Definition VERSION_TIFF : Z := 42.
Definition VERSION_BIGTIFF : Z := 43.
Definition ENDIAN_BIG : Z := 0x4D4D.
Definition ENDIAN_LITTLE : Z := 0x4949.

(** [new CogLayer(source)]. *)
Definition new (src : CogSource) : CogLayer := mkLayer src None None false [].

(** A call on [this.source]. *)
Definition onSource {A} (m : M CogSource A) : M CogLayer A :=
  fun l =>
    let? (a, s') := m (source l) in
    Ok (a, mkLayer s' (version l) (isLittleEndian l) (isBigTiff l) (images l)).

Definition setLittleEndian (b : bool) : M CogLayer unit :=
  modify (fun l => mkLayer (source l) (version l) (Some b) (isBigTiff l) (images l)).
Definition setVersion (v : Z) : M CogLayer unit :=
  modify (fun l => mkLayer (source l) (Some v) (isLittleEndian l) (isBigTiff l) (images l)).
Definition pushImage (image : Image) : M CogLayer unit :=
  modify (fun l => mkLayer (source l) (version l) (isLittleEndian l) (isBigTiff l)
                           (images l ++ [image])).

(** [image.name]: a property read on the image object. *)
Definition prop (image : Image) (name : string) : JsVal :=
  default JUndefined (image !! name).

(** The lazy values: the closures of [readIfd]. *)
Definition is_lazy (v : JsVal) : bool :=
  match v with JFun _ _ _ => true | _ => false end.

(** One turn of the loop of [readIfd] on the entry at [pos]: the
    assignment [image[tiffTag] = value] it performs, or [None] when the
    code is unknown and the turn [continue]s. *)
Definition readEntry (pos : Z) : M CogSource (option (string * JsVal)) :=
  let! tagCode := Source.uint16 pos in
  match tif.TIFF_TAG tagCode with
  | None => ret None
  | Some tiffTag =>
      let! tagType := Source.uint16 (pos + 2) in
      let! count := Source.uint32 (pos + 4) in
      match tif.TIFF_SIZE tagType with
      | None => throw TypeError          (* [typeSize.length] on undefined *)
      | Some typeSize =>
          let tagLen := count * typeSize in
          if tagLen <=? 4 then
            let! value := Source.readType (pos + 8) tagType count in
            ret (Some (tiffTag, value))
          else
            let! valueOffset := Source.uint32 (pos + 8) in
            let! ready := Source.hasBytes valueOffset (Some tagLen) in
            if negb ready then
              ret (Some (tiffTag, JFun valueOffset tagType count))
            else
              let! value := Source.readType valueOffset tagType count in
              ret (Some (tiffTag, value))
      end
  end.

(** [image[tiffTag] = value]. *)
Definition assign (e : option (string * JsVal)) (image : Image) : Image :=
  match e with
  | Some (tiffTag, value) => <[tiffTag := value]> image
  | None => image
  end.

(** The turns [i], [i+1], ..., [i+n-1] of
    [for (let i = 0; i < tagCount; i++)]. *)
Fixpoint readEntries (byteStart : Z) (i n : nat) (image : Image)
  : M CogSource Image :=
  match n with
  | O => ret image
  | S n' =>
      let! e := readEntry (byteStart + 12 * Z.of_nat i) in
      readEntries byteStart (S i) n' (assign e image)
  end.

Definition readIfd (offset : Z) : M CogSource (Z * Image) :=
  let! tagCount := Source.uint16 offset in
  let byteStart := offset + 2 in
  let! image := readEntries byteStart 0 (Z.to_nat tagCount) ∅ in
  let! nextOffset := Source.uint32 (offset + tagCount * 12 + 2) in
  ret (nextOffset, image).

(** [processIfd] recurses along the chain; [fuel] bounds the depth. *)
Fixpoint processIfd (fuel : nat) (offset : Z) : M CogLayer unit :=
  match fuel with
  | O => fun _ => OutOfFuel
  | S fuel' =>
      let! (nextOffset, image) := onSource (readIfd offset) in
      let! _ := pushImage image in
      if negb (nextOffset =? 0) then processIfd fuel' nextOffset
      else ret tt
  end.

Definition fetchHeader (fuel : nat) : M CogLayer unit :=
  let! endian := onSource (Source.uint16 0) in
  let! _ := setLittleEndian (endian =? ENDIAN_LITTLE) in
  if negb (endian =? ENDIAN_LITTLE) then throw OnlyLittleEndian
  else
    let! v := onSource (Source.uint16 2) in
    let! _ := setVersion v in
    if v =? VERSION_BIGTIFF then throw (OnlyTiffSupported v)
    else if negb (v =? VERSION_TIFF) then throw (OnlyTiffSupported v)
    else
      let! offset := onSource (Source.uint32 4) in
      let! ready := onSource (Source.hasBytes offset None) in
      if negb ready then throw OffsetOutOfRangeHeader
      else processIfd fuel offset.

Definition init (fuel : nat) : M CogLayer unit := fetchHeader fuel.

(** [this.images[z]]. *)
Definition imageAt (imgs : list Image) (z : float64) : option Image :=
  match Num.to_Z z with
  | Some i => if 0 <=? i then imgs !! Z.to_nat i else None
  | None => None
  end.

(** The part of [getTileRaw] before [await this.source.getBytes]: the media
    type, and the offset and byte count handed to the source. It does not
    touch the source. *)
Definition tileRequest (imgs : list Image) (x y z : float64)
  : Outcome (JsVal * JsVal * JsVal) :=
  match imageAt imgs z with
  | None => Throw (MissingZ z)
  | Some image =>
      let? mimeType := tif.TIFF_COMPRESSION (prop image "Compression") in
      let? q := JS.div (prop image "ImageLength") (prop image "TileLength") in
      let nyTiles := Num.ceil q in
      let idx := Num.add (Num.mul y nyTiles) x in
      let? len := JS.length (prop image "TileOffsets") in
      let? len := JS.ToNumber len in
      if JS.gt idx len then Throw (TileDoesNotExist x y z)
      else
        let? offset := JS.index (prop image "TileOffsets") idx in
        let? byteCount := JS.index (prop image "TileByteCounts") idx in
        Ok (mimeType, offset, byteCount)
  end.

(** A byte offset or length handed to the source. *)
Definition asNatural (v : JsVal) : Outcome Z :=
  match v with
  | JNum n =>
      match Num.to_Z n with
      | Some k => if 0 <=? k then Ok k else Uncovered
      | None => Uncovered
      end
  | _ => Uncovered
  end.

Record Tile : Type := mkTile { mimeType : JsVal; bytes : list Z }.

Definition getTileRaw (x y z : float64) : M CogLayer Tile :=
  let! l := get in
  let! (mimeType, offset, byteCount) := pure_of (tileRequest (images l) x y z) in
  let! offset := pure_of (asNatural offset) in
  let! byteCount := pure_of (asNatural byteCount) in
  let! bytes := onSource (Source.getBytes offset byteCount) in
  ret (mkTile mimeType bytes).

End Layer.

(** ** The image view: the two [CogTifImage] classes *)

(** Modelled from the spec: the class [CogTifTag] ([./read/cog.tif.tag]) is
    not among the sources. Following the spec's section 3 a tag holds its
    resolved value or is lazy, carrying [(offset, type, count)]; a lazy tag
    has no value yet and reads as [null]. *)
Inductive CogTifTag : Type :=
| TagEager (v : JsVal)
| TagLazy (offset tagType count : Z).

(** Modelled from the spec: the field [value] of the missing [CogTifTag]. *)
Definition tagValue (t : CogTifTag) : JsVal :=
  match t with
  | TagEager v => v
  | TagLazy _ _ _ => JNull
  end.

(** [Map<TiffTag, CogTifTag<any>>]. *)
Abbreviation Tags := (gmap Z CogTifTag).

(** [Size] of [./@types/vector]. *)
Record Size : Type := mkSize { width : JsVal; height : JsVal }.

(** [v === k] for a number literal [k]. *)
Definition strictEqNum (v : JsVal) (k : Z) : bool :=
  match v with
  | JNum n => Num.eqb n (Num.of_Z k)
  | _ => false
  end.

(** The class that holds a back-reference [tif] to the facade. The class
    [CogTif] of the facade is not among the sources; the image only stores
    the reference, so its type is left open. *)
Module WithFacade.

Record CogTifImage (Facade : Type) : Type := mkImage {
  tif : Facade;
  id : Z;
  offset : Z;
  tags : Tags
}.
Arguments mkImage {Facade} _ _ _ _.
Arguments tif {Facade} _.
Arguments id {Facade} _.
Arguments offset {Facade} _.
Arguments tags {Facade} _.

Section Accessors.
Context {Facade : Type}.
Implicit Type this : CogTifImage Facade.

Definition value this (tag : Z) : JsVal :=
  match tags this !! tag with
  | None => JNull
  | Some sourceTag => tagValue sourceTag
  end.

Definition origin this : Outcome JsVal :=
  let tiePoints := value this tif.TiffTag.ModelTiepoint in
  if JS.nullish tiePoints then Throw NoModelTiepoint
  else
    let? len := JS.length tiePoints in
    if negb (strictEqNum len 6) then Throw NoModelTiepoint
    else JS.slice tiePoints 3.

Definition resolution this : Outcome JsVal :=
  let modelPixelScale := value this tif.TiffTag.ModelPixelScale in
  if JS.nullish modelPixelScale then Throw NoModelPixelScale
  else
    let? r0 := JS.index modelPixelScale (Num.of_Z 0) in
    let? s1 := JS.index modelPixelScale (Num.of_Z 1) in
    let? r1 := JS.neg s1 in
    let? r2 := JS.index modelPixelScale (Num.of_Z 2) in
    Ok (JArr [r0; JNum r1; r2]).

Definition size this : Size :=
  mkSize (value this tif.TiffTag.ImageWidth) (value this tif.TiffTag.ImageHeight).

(** [size == null] is false: [size] is an object. *)
Definition bbox this : Outcome JsVal :=
  let size := size this in
  let? origin := origin this in
  let? resolution := resolution this in
  if JS.nullish origin || JS.nullish resolution then Ok JNull
  else
    let? x1 := JS.index origin (Num.of_Z 0) in
    let? y1 := JS.index origin (Num.of_Z 1) in
    let? rx := JS.index resolution (Num.of_Z 0) in
    let? dx := JS.mul rx (width size) in
    let? x2 := JS.add x1 (JNum dx) in
    let? ry := JS.index resolution (Num.of_Z 1) in
    let? dy := JS.mul ry (height size) in
    let? y2 := JS.add y1 (JNum dy) in
    let? xmin := JS.Math_min x1 (JNum x2) in
    let? ymin := JS.Math_min y1 (JNum y2) in
    let? xmax := JS.Math_max x1 (JNum x2) in
    let? ymax := JS.Math_max y1 (JNum y2) in
    Ok (JArr [JNum xmin; JNum ymin; JNum xmax; JNum ymax]).

Definition compression this : Outcome JsVal :=
  let compression := value this tif.TiffTag.Compression in
  if JS.nullish compression || negb (JS.is_number compression) then Ok JNull
  else tif.TIFF_COMPRESSION compression.

Definition isTiled this : bool :=
  match value this tif.TiffTag.TileWidth with
  | JNull => false
  | _ => true
  end.

End Accessors.
End WithFacade.

(** The class without the back-reference. *)
Module NoFacade.

Record CogTifImage : Type := mkImage {
  tags : Tags;
  id : Z;
  offset : Z
}.

(** [new CogTifImage(id, offset)]: the tag map starts empty. *)
Definition new (id offset : Z) : CogTifImage := mkImage ∅ id offset.

Implicit Type this : CogTifImage.

Definition value this (tag : Z) : JsVal :=
  match tags this !! tag with
  | None => JNull
  | Some sourceTag => tagValue sourceTag
  end.

Definition origin this : Outcome JsVal :=
  let tiePoints := value this tif.TiffTag.ModelTiepoint in
  if JS.nullish tiePoints then Ok JNull
  else if JS.truthy tiePoints then
    let? len := JS.length tiePoints in
    if strictEqNum len 6 then JS.slice tiePoints 3 else Ok JNull
  else Ok JNull.

Definition resolution this : Outcome JsVal :=
  let modelPixelScale := value this tif.TiffTag.ModelPixelScale in
  if JS.nullish modelPixelScale then Ok JNull
  else
    let? r0 := JS.index modelPixelScale (Num.of_Z 0) in
    let? s1 := JS.index modelPixelScale (Num.of_Z 1) in
    let? r1 := JS.neg s1 in
    let? r2 := JS.index modelPixelScale (Num.of_Z 2) in
    Ok (JArr [r0; JNum r1; r2]).

Definition size this : Size :=
  mkSize (value this tif.TiffTag.ImageWidth) (value this tif.TiffTag.ImageHeight).

Definition bbox this : Outcome JsVal :=
  let size := size this in
  let? origin := origin this in
  let? resolution := resolution this in
  if JS.nullish origin || JS.nullish resolution then Ok JNull
  else
    let? x1 := JS.index origin (Num.of_Z 0) in
    let? y1 := JS.index origin (Num.of_Z 1) in
    let? rx := JS.index resolution (Num.of_Z 0) in
    let? dx := JS.mul rx (width size) in
    let? x2 := JS.add x1 (JNum dx) in
    let? ry := JS.index resolution (Num.of_Z 1) in
    let? dy := JS.mul ry (height size) in
    let? y2 := JS.add y1 (JNum dy) in
    let? xmin := JS.Math_min x1 (JNum x2) in
    let? ymin := JS.Math_min y1 (JNum y2) in
    let? xmax := JS.Math_max x1 (JNum x2) in
    let? ymax := JS.Math_max y1 (JNum y2) in
    Ok (JArr [JNum xmin; JNum ymin; JNum xmax; JNum ymax]).

Definition compression this : Outcome JsVal :=
  let compression := value this tif.TiffTag.Compression in
  if JS.nullish compression || negb (JS.is_number compression) then Ok JNull
  else tif.TIFF_COMPRESSION compression.

Definition isTiled this : bool :=
  match value this tif.TiffTag.TileWidth with
  | JNull => false
  | _ => true
  end.

Definition tileInfo this : Size :=
  mkSize (value this tif.TiffTag.TileWidth) (value this tif.TiffTag.TileHeight).

Record TileCount : Type := mkTileCount { nx : float64; ny : float64; total : float64 }.

Definition tileCount this : Outcome TileCount :=
  let size := size this in
  let tileInfo := tileInfo this in
  let? qx := JS.div (width size) (width tileInfo) in
  let nx := Num.ceil qx in
  let? qy := JS.div (height size) (height tileInfo) in
  let ny := Num.ceil qy in
  Ok (mkTileCount nx ny (Num.mul nx ny)).

End NoFacade.

(** ** Files of the scenarios *)

Module Scenario.

(** [n] little-endian bytes of [v]. *)
Definition le (n v : Z) : list Z :=
  (fun i => (v / 2 ^ (8 * i)) mod 256) <$> seqZ 0 n.

(** A 12-byte IFD entry. *)
Definition entry (code type count value : Z) : list Z :=
  le 2 code ++ le 2 type ++ le 4 count ++ le 4 value.

(** II, version 42, first IFD at 8. *)
Definition header : list Z := [0x49; 0x49; 0x2A; 0x00] ++ le 4 8.

Definition zeros (n : nat) : list Z := replicate n 0.

(** The default chunk size, 64 KiB. *)
Definition defaultChunk : Z := 65536.

(** S1: 49 49 2A 00 08 00 00 00 00 00. *)
Definition S1 : list Z :=
  [0x49; 0x49; 0x2A; 0x00; 0x08; 0x00; 0x00; 0x00; 0x00; 0x00].

(** S1 followed by the next-IFD offset that ends the chain. *)
Definition S1_closed : list Z := S1 ++ le 4 0.

(** S6: one image, 600 x 400 in tiles of 256 x 256, that is 3 x 2 tiles.
    Tile [i] is [i+1] bytes of value [0xA0 + i]; TileOffsets at 98,
    TileByteCounts at 122, the tiles from 128 on. *)
Definition S6 : list Z :=
  header ++ le 2 7
  ++ entry 256 3 1 600 ++ entry 257 3 1 400 ++ entry 259 3 1 50001
  ++ entry 322 3 1 256 ++ entry 323 3 1 256
  ++ entry 324 4 6 98 ++ entry 325 1 6 122
  ++ le 4 0
  ++ concat (le 4 <$> [128; 129; 131; 134; 138; 143])
  ++ [1; 2; 3; 4; 5; 6]
  ++ replicate 1 0xA0 ++ replicate 2 0xA1 ++ replicate 3 0xA2
  ++ replicate 4 0xA3 ++ replicate 5 0xA4 ++ replicate 6 0xA5.

(** S5: chunks of 32 bytes; 512 x 512 in tiles of 256 x 256. TileOffsets
    (4 LONGs, 16 bytes) lives at 200, in chunk 6; TileByteCounts (4 BYTEs)
    is inline; the IFD ends at 98 and the tiles start at 128. *)
Definition S5 : list Z :=
  header ++ le 2 7
  ++ entry 256 3 1 512 ++ entry 257 3 1 512 ++ entry 259 3 1 50001
  ++ entry 322 3 1 256 ++ entry 323 3 1 256
  ++ entry 324 4 4 200 ++ (le 2 325 ++ le 2 1 ++ le 4 4 ++ [2; 3; 4; 5])
  ++ le 4 0
  ++ zeros 30
  ++ replicate 2 0xB0 ++ replicate 3 0xB1 ++ replicate 4 0xB2 ++ replicate 5 0xB3
  ++ zeros 58
  ++ concat (le 4 <$> [128; 130; 133; 137])
  ++ zeros 8.

Definition S5_chunk : Z := 32.

(** A tall image: 256 x 768 in tiles of 256 x 256, that is 1 x 3 tiles of
    one byte each, at 86, 87 and 88. *)
Definition tall : list Z :=
  header ++ le 2 6
  ++ entry 256 3 1 256 ++ entry 257 3 1 768
  ++ entry 322 3 1 256 ++ entry 323 3 1 256
  ++ (le 2 324 ++ le 2 1 ++ le 4 3 ++ [86; 87; 88; 0])
  ++ (le 2 325 ++ le 2 1 ++ le 4 3 ++ [1; 1; 1; 0])
  ++ le 4 0
  ++ [0xC0; 0xC1; 0xC2].

(** An IFD whose two entries both carry ImageWidth (256): 600, then 800. *)
Definition twice : list Z :=
  header ++ le 2 2 ++ entry 256 3 1 600 ++ entry 256 3 1 800 ++ le 4 0.

(** The layer after [init], when [init] returns. *)
Definition loaded (bytes : list Z) (chunk : Z) : option CogLayer :=
  match Layer.init 8 (Layer.new (Source.open bytes chunk)) with
  | Ok (_, l) => Some l
  | _ => None
  end.

(** A tag map of numbers for the image classes. *)
Definition nums (zs : list Z) : JsVal := JArr ((fun z => JNum (Num.of_Z z)) <$> zs).

Definition geoTags (scale : JsVal) : Tags :=
  <[tif.TiffTag.ImageWidth := TagEager (JNum (Num.of_Z 600))]>
  (<[tif.TiffTag.ImageHeight := TagEager (JNum (Num.of_Z 400))]>
  (<[tif.TiffTag.ModelTiepoint := TagEager (nums [0; 0; 0; 10; 20; 0])]>
  (<[tif.TiffTag.ModelPixelScale := TagEager scale]> ∅))).

(** A 600 x 400 image tied at (10, 20) with pixel scale (2, 3, 0), in both
    classes, and an image without tags. *)
Definition geoA : WithFacade.CogTifImage unit :=
  WithFacade.mkImage tt 0 8 (geoTags (nums [2; 3; 0])).
Definition geoB : NoFacade.CogTifImage :=
  NoFacade.mkImage (geoTags (nums [2; 3; 0])) 0 8.
Definition bareA : WithFacade.CogTifImage unit := WithFacade.mkImage tt 0 8 ∅.
Definition bareB : NoFacade.CogTifImage := NoFacade.new 0 8.

(** The tags of the image of S6, for [tileCount]. *)
Definition gridB : NoFacade.CogTifImage :=
  NoFacade.mkImage
    (<[tif.TiffTag.ImageWidth := TagEager (JNum (Num.of_Z 600))]>
    (<[tif.TiffTag.ImageHeight := TagEager (JNum (Num.of_Z 400))]>
    (<[tif.TiffTag.TileWidth := TagEager (JNum (Num.of_Z 256))]>
    (<[tif.TiffTag.TileHeight := TagEager (JNum (Num.of_Z 256))]> ∅)))) 0 8.

(** The same image with Compression set to [code]. *)
Definition withCompression (code : Z) : Tags :=
  <[tif.TiffTag.Compression := TagEager (JNum (Num.of_Z code))]> ∅.

(** The geo image whose pixel scale is (NaN, 3, 0). *)
Definition nanScale : JsVal :=
  JArr [JNum Num.nan; JNum (Num.of_Z 3); JNum (Num.of_Z 0)].
Definition nanB : NoFacade.CogTifImage :=
  NoFacade.mkImage (geoTags nanScale) 0 8.

End Scenario.

(** ** Vocabulary of the statements *)

(** The length of an array or of a string; nothing else has one that can
    be 6. *)
Definition lengthOf (v : JsVal) : option nat :=
  match v with
  | JArr l => Some (length l)
  | JStr s => Some (String.length s)
  | _ => None
  end.

(** The point [(x, y)] lies in the box [[xmin, ymin, xmax, ymax]]. *)
Definition boxContains (box : JsVal) (x y : float64) : bool :=
  match box with
  | JArr [JNum xmin; JNum ymin; JNum xmax; JNum ymax] =>
      Num.leb xmin x && Num.leb x xmax && Num.leb ymin y && Num.leb y ymax
  | _ => false
  end.

(** The [j]-th turn of the loop of [readIfd], run after the turns before
    it: the assignment it performs. *)
Definition entryOf (byteStart : Z) (j : nat) (s : CogSource)
  : Outcome (option (string * JsVal)) :=
  let? (_, sj) := Layer.readEntries byteStart 0 j ∅ s in
  let? (e, _) := Layer.readEntry (byteStart + 12 * Z.of_nat j) sj in
  Ok e.

(** What the loop reads of the entry at [pos] when it reaches it in state
    [s]: a known tag, its type, count and element size and, for a value of
    more than four bytes, the offset of the value and whether [hasBytes]
    found its range resident at that moment. *)
Definition entryRead (pos : Z) (s : CogSource) (tiffTag : string)
    (tagType count typeSize valueOffset : Z) (resident : bool) : Prop :=
  exists tagCode s1 s2 s3,
    Source.uint16 pos s = Ok (tagCode, s1) /\
    tif.TIFF_TAG tagCode = Some tiffTag /\
    Source.uint16 (pos + 2) s1 = Ok (tagType, s2) /\
    Source.uint32 (pos + 4) s2 = Ok (count, s3) /\
    tif.TIFF_SIZE tagType = Some typeSize /\
    (4 < count * typeSize ->
     exists s4,
       Source.uint32 (pos + 8) s3 = Ok (valueOffset, s4) /\
       Source.hasBytes valueOffset (Some (count * typeSize)) s4
         = Ok (resident, s4)).

(** The chunk table agrees with the file: every cached chunk holds the
    bytes of its range. *)
Definition wf (s : CogSource) : Prop :=
  0 < chunkSize s /\
  forall id bs, chunks s !! id = Some bs -> bs = Source.chunkBytes s id.

(** Two states of a source over the same file and chunk size. *)
Definition same_file (s s' : CogSource) : Prop :=
  backing s' = backing s /\ chunkSize s' = chunkSize s.

(** The bytes of a tile, when [getTileRaw] returns one. *)
Definition tileBytes (r : Outcome (Layer.Tile * CogLayer)) : Outcome (list Z) :=
  let? (tile, _) := r in Ok (Layer.bytes tile).

(** ** Vocabulary of the IFD chain *)

(** The IFD chain that starts at [offset], read from the source state [s]:
    the images of its IFDs in the order [processIfd] visits them, up to the
    IFD whose next offset is 0, and the state the source is left in. *)
Inductive Chain : Z -> CogSource -> list Image -> CogSource -> Prop :=
| chain_last offset s image s' :
    Layer.readIfd offset s = Ok ((0, image), s') ->
    Chain offset s [image] s'
| chain_next offset s nextOffset image s1 rest s' :
    Layer.readIfd offset s = Ok ((nextOffset, image), s1) ->
    nextOffset <> 0 ->
    Chain nextOffset s1 rest s' ->
    Chain offset s (image :: rest) s'.

(** The layer [l] after its source moved to [s] and [imgs] were pushed. *)
Definition advanced (l : CogLayer) (s : CogSource) (imgs : list Image) : CogLayer :=
  mkLayer s (version l) (isLittleEndian l) (isBigTiff l) (images l ++ imgs).


(** Every chunk that is ready lies in [0, bound). *)
Definition readyBelow (s : CogSource) (bound : Z) : Prop :=
  forall id, Source.isReady s id = true -> 0 <= id < bound.

(** ** More files *)

Module Sample.

(** MM: a big-endian header. *)
Definition bigEndian : list Z :=
  [0x4D; 0x4D; 0x00; 0x2A; 0x00; 0x00; 0x00; 0x08] ++ Scenario.le 2 0 ++ Scenario.le 4 0.

(** II, version 43: a BigTIFF header. *)
Definition bigTiff : list Z :=
  [0x49; 0x49; 0x2B; 0x00] ++ Scenario.le 4 8 ++ Scenario.le 2 0 ++ Scenario.le 4 0.

(** A classic header whose first IFD is at 100, read in chunks of 32. *)
Definition farIfd : list Z :=
  [0x49; 0x49; 0x2A; 0x00] ++ Scenario.le 4 100 ++ Scenario.zeros 92
  ++ Scenario.le 2 0 ++ Scenario.le 4 0.


(** An empty IFD at 8 whose next offset is 8 again. *)
Definition cyclic : list Z :=
  Scenario.header ++ Scenario.le 2 0 ++ Scenario.le 4 8.

(** ImageWidth 600, then ImageLength with the type code 13, which no TIFF
    type has. *)
Definition badType : list Z :=
  Scenario.header ++ Scenario.le 2 2
  ++ Scenario.entry 256 3 1 600 ++ Scenario.entry 257 13 1 400
  ++ Scenario.le 4 0.

(** A stripped image: a size and a compression, no tile tags. *)
Definition stripped : list Z :=
  Scenario.header ++ Scenario.le 2 3
  ++ Scenario.entry 256 3 1 600 ++ Scenario.entry 257 3 1 400
  ++ Scenario.entry 259 3 1 1
  ++ Scenario.le 4 0.

(** A 600 x 400 image without tile tags, and an image without any size. *)
Definition untiledB : NoFacade.CogTifImage :=
  NoFacade.mkImage
    (<[tif.TiffTag.ImageWidth := TagEager (JNum (Num.of_Z 600))]>
    (<[tif.TiffTag.ImageHeight := TagEager (JNum (Num.of_Z 400))]> ∅)) 0 8.

(** Tie point (10, 20), no pixel scale. *)
Definition tiedOnly : Tags :=
  <[tif.TiffTag.ModelTiepoint := TagEager (Scenario.nums [0; 0; 0; 10; 20; 0])]> ∅.

(** The source over [bytes] once its first chunk has been fetched. *)
Definition cached (bytes : list Z) (chunk : Z) : CogSource :=
  Source.fetchChunk (Source.open bytes chunk) 0.

(** The layer [init] leaves, its first image, and the elements of an
    array. *)
Definition layerOf (bytes : list Z) (chunk : Z) : CogLayer :=
  default (Layer.new (Source.open bytes chunk)) (Scenario.loaded bytes chunk).
Definition firstImage (l : CogLayer) : Image := default ∅ (images l !! 0%nat).
Definition elements (v : JsVal) : list JsVal :=
  match v with JArr l => l | _ => [] end.

(** An image whose only property is ImageWidth. *)
Definition widthOnly (w : Z) : Image := {[ "ImageWidth"%string := JNum (Num.of_Z w) ]}.


End Sample.

(** ** The tile dump: the names of the tile files *)

Module ActionDumpTile.

(** The enum [MimeType] of [../read/tif] is not among the sources. *)
Module MimeType.
(** Modelled from the spec: [MimeType.JPEG], missing with [../read/tif];
    the media type of the spec's section 6 for the codes 6 and 7. *)
Definition JPEG : string := "image/jpeg".
(** Modelled from the spec: [MimeType.JP2], missing with [../read/tif];
    the media type of the spec's section 6 for the code 34712. *)
Definition JP2 : string := "image/jp2".
(** Modelled from the spec: [MimeType.WEBP], missing with [../read/tif];
    the media type of the spec's section 6 for the code 50001. *)
Definition WEBP : string := "image/webp".
End MimeType.

(** The own properties of the object [FileExtension]. *)
Definition FileExtension (key : string) : option string :=
  if String.eqb key MimeType.JPEG then Some "jpeg"%string
  else if String.eqb key MimeType.JP2 then Some "jp2"%string
  else if String.eqb key MimeType.WEBP then Some "webp"%string
  else None.

(** The properties an object literal inherits from [Object.prototype]: a
    read of one of them on [FileExtension] finds a function, not
    [undefined]. *)
Definition inherited (key : string) : bool :=
  existsb (String.eqb key)
    ["constructor"; "hasOwnProperty"; "isPrototypeOf"; "propertyIsEnumerable";
     "toLocaleString"; "toString"; "valueOf"; "__proto__";
     "__defineGetter__"; "__defineSetter__";
     "__lookupGetter__"; "__lookupSetter__"]%string.

(** The decimal digits of an integer, with [-] for a negative one. *)
Definition decimal (z : Z) : string :=
  DecimalString.NilZero.string_of_int (Z.to_int z).

(** [`${n}`] for a number: NaN, the infinities, and the integers below
    2^53 in magnitude, which print as their decimal digits (-0 as 0).
    From 2^53 on a number prints as the shortest digits that read back as
    the same number, which are not the digits of the integer it holds;
    these and the fractions are left out. *)
Definition NumberToString (n : float64) : option string :=
  match n with
  | S754_nan => Some "NaN"%string
  | S754_infinity s => Some (if s then "-Infinity" else "Infinity")%string
  | _ =>
      match Num.to_Z n with
      | Some z => if Z.abs z <? 2 ^ 53 then Some (decimal z) else None
      | None => None
      end
  end.

(** The key of the property in [FileExtension[mimeType]]. *)
Definition propertyKey (v : JsVal) : option string :=
  match v with
  | JUndefined => Some "undefined"%string
  | JNull => Some "null"%string
  | JStr s => Some s
  | JNum n => NumberToString n
  | JArr _ | JFun _ _ _ => None
  end.

(** [s.padStart(targetLength, c)] for a one-character [c]. *)
Definition padStart (s : string) (targetLength : nat) (c : ascii) : string :=
  string_of_list_ascii (replicate (targetLength - String.length s) c) +:+ s.

(** What a call of [getTileName] comes to: the name, the error
    `Unable to process tile type:${mimeType}`, or a run through a
    conversion that is left out. *)
Inductive Named : Type :=
| FileName (name : string)
| UnableToProcess (mimeType : JsVal)
| NotCovered.

Definition getTileName (mimeType : JsVal) (zoom x y : float64) : Named :=
  match NumberToString x, NumberToString y with
  | Some xs, Some ys =>
      let xS := padStart xs 3 "0" in
      let yS := padStart ys 3 "0" in
      match propertyKey mimeType with
      | None => NotCovered
      | Some key =>
          match FileExtension key with
          | Some fileExt =>
              match NumberToString zoom with
              | Some zs =>
                  FileName (xS +:+ "_" +:+ yS +:+ "_z" +:+ zs +:+ "." +:+ fileExt)
              | None => NotCovered
              end
          | None =>
              if inherited key then NotCovered else UnableToProcess mimeType
          end
      end
  | _, _ => NotCovered
  end.

End ActionDumpTile.

(** The character [c] occurs in [s]. *)
Fixpoint occurs (c : ascii) (s : string) : bool :=
  match s with
  | EmptyString => false
  | String c' s' => Ascii.eqb c c' || occurs c s'
  end.

(** A call on the source keeps the file, the chunk size and the agreement
    of the chunk table with the file. *)
Definition keepsFile {A} (m : M CogSource A) : Prop :=
  forall s a s', wf s -> m s = Ok (a, s') -> wf s' /\ same_file s s'.

(** * Properties *)

(** ** Sanity checks of the embedding *)

Example of_Z_256 : Num.of_Z 256 = S754_finite false 4503599627370496 (-44).
Proof. reflexivity. Qed.

Example ceil_400_256 :
  Num.ceil (Num.div (Num.of_Z 400) (Num.of_Z 256)) = Num.of_Z 2.
Proof. reflexivity. Qed.

Example ceil_600_256 :
  Num.ceil (Num.div (Num.of_Z 600) (Num.of_Z 256)) = Num.of_Z 3.
Proof. reflexivity. Qed.

Example bits64_one : Num.of_bits64 4607182418800017408 = Num.of_Z 1.
Proof. reflexivity. Qed.

Example bits32_one_half :
  Num.of_bits32 1056964608 = Num.div (Num.of_Z 1) (Num.of_Z 2).
Proof. reflexivity. Qed.

Example le_uint_42 : Source.le_uint [42; 0] = 42.
Proof. reflexivity. Qed.

Example header_version :
  Source.uint16 2 (Source.open Scenario.header Scenario.defaultChunk)
  = Ok (42, Source.fetchChunk (Source.open Scenario.header Scenario.defaultChunk) 0).
Proof. vm_compute. reflexivity. Qed.

(** S4: one inline entry [code=256 type=3 count=1 value=0x0100] gives
    [ImageWidth == 256]. *)
Example inline_width :
  Layer.readEntry 10
    (Source.open (Scenario.header ++ Scenario.le 2 1
                  ++ Scenario.entry 256 3 1 0x0100 ++ Scenario.le 4 0) 64)
  = Ok (Some ("ImageWidth"%string, JNum (Num.of_Z 256)),
        Source.fetchChunk (Source.open (Scenario.header ++ Scenario.le 2 1
                  ++ Scenario.entry 256 3 1 0x0100 ++ Scenario.le 4 0) 64) 0).
Proof. vm_compute. reflexivity. Qed.

(** ** Numbers *)

Section NumFacts.

Lemma shr_exponent mrs e n : e <= snd (shr mrs e n).
Proof. unfold shr. destruct n; simpl; lia. Qed.

Lemma shr_fexp_exponent m e l : e <= snd (shr_fexp Num.prec Num.emax m e l).
Proof. unfold shr_fexp. apply shr_exponent. Qed.

(** Rounding never lowers the exponent. *)
Lemma round_aux_exponent sx mx ex lx s m e :
  binary_round_aux Num.prec Num.emax sx mx ex lx = S754_finite s m e -> ex <= e.
Proof.
  unfold binary_round_aux.
  pose proof (shr_fexp_exponent mx ex lx) as H1.
  destruct (shr_fexp Num.prec Num.emax mx ex lx) as [mrs' e'] eqn:E1.
  pose proof (shr_fexp_exponent
    (round_nearest_even (shr_m mrs') (loc_of_shr_record mrs')) e' loc_Exact) as H2.
  destruct (shr_fexp Num.prec Num.emax _ e' loc_Exact) as [mrs'' e''] eqn:E2.
  simpl in *.
  destruct (shr_m mrs''); try discriminate.
  destruct (e'' <=? _); intros [= <- <- <-]. lia.
Qed.

Lemma of_Z_exponent p s m e :
  Num.of_Z (Z.pos p) = S754_finite s m e ->
  Z.min 0 (Z.pos (digits2_pos p) - 53) <= e.
Proof.
  unfold Num.of_Z, binary_normalize, binary_round.
  destruct (shl_align p 0 _) as [mz ez] eqn:E.
  intros H%round_aux_exponent.
  unfold shl_align in E.
  set (ex' := fexp Num.prec Num.emax (Z.pos (digits2_pos p) + 0)) in *.
  assert (Z.pos (digits2_pos p) - 53 <= ex').
  { unfold ex', fexp, Num.prec. lia. }
  destruct (ex' - 0) eqn:E'; inversion E; subst; lia.
Qed.

Lemma digits2_pos_ge4 p : 8 <= Z.pos p -> 4 <= Z.pos (digits2_pos p).
Proof.
  destruct p as [[[q|q|]|[q|q|]|]|[[q|q|]|[q|q|]|]|]; simpl; lia.
Qed.

Lemma of_Z_large_ne_6 z : 8 <= z -> Num.eqb (Num.of_Z z) (Num.of_Z 6) = false.
Proof.
  intros Hz. destruct z as [|p|p]; try lia.
  pose proof (digits2_pos_ge4 p Hz) as Hd.
  pose proof (of_Z_exponent p) as He.
  destruct (Num.of_Z (Z.pos p)) as [s|s| |s m e]; try reflexivity.
  - destruct s; reflexivity.
  - specialize (He s m e eq_refl).
    change (Num.of_Z 6) with (S754_finite false 6755399441055744 (-50)).
    unfold Num.eqb, SFeqb, SFcompare.
    destruct s; [reflexivity|].
    destruct (Z.compare_spec e (-50)); try lia; reflexivity.
Qed.

(** [length === 6] holds for the length 6 only. *)
Lemma of_nat_eq_6 (n : nat) :
  Num.eqb (Num.of_Z (Z.of_nat n)) (Num.of_Z 6) = true <-> n = 6%nat.
Proof.
  split; [|intros ->; reflexivity].
  do 8 (destruct n as [|n]; [vm_compute; try discriminate; reflexivity|]).
  rewrite of_Z_large_ne_6 by lia. discriminate.
Qed.

Lemma compare_refl x : Num.is_nan x = false -> SFcompare x x = Some Eq.
Proof.
  destruct x as [s|s| |s m e]; simpl; try discriminate; intros _.
  - reflexivity.
  - destruct s; reflexivity.
  - rewrite Z.compare_refl, Pos.compare_cont_refl. destruct s; reflexivity.
Qed.

Lemma compare_antisym x y c :
  SFcompare x y = Some c -> SFcompare y x = Some (CompOpp c).
Proof.
  destruct x as [s|s| |s m e], y as [s'|s'| |s' m' e']; simpl;
    try discriminate; intros [= <-];
    try (destruct s; reflexivity); try (destruct s'; reflexivity);
    try (destruct s, s'; reflexivity).
  rewrite (Z.compare_antisym e e').
  replace (Pos.compare_cont Eq m' m) with (CompOpp (Pos.compare_cont Eq m m'))
    by exact (Pos.compare_cont_antisym m m' Eq).
  destruct s, s'; try reflexivity;
    destruct (e ?= e'); simpl; try reflexivity;
    destruct (Pos.compare_cont Eq m m'); reflexivity.
Qed.

Lemma compare_total x y :
  Num.is_nan x = false -> Num.is_nan y = false -> exists c, SFcompare x y = Some c.
Proof.
  destruct x as [s|s| |s m e], y as [s'|s'| |s' m' e']; simpl;
    try discriminate; intros _ _; eauto.
Qed.

Lemma min_le a b :
  Num.is_nan a = false -> Num.is_nan b = false ->
  Num.leb (Num.min a b) a = true /\ Num.leb (Num.min a b) b = true.
Proof.
  intros Ha Hb. unfold Num.min. rewrite Ha, Hb. simpl.
  destruct (compare_total a b Ha Hb) as [c Hc].
  pose proof (compare_antisym _ _ _ Hc) as Hc'.
  unfold Num.ltb, SFltb, Num.leb, SFleb. rewrite Hc, Hc'.
  destruct c; simpl.
  - destruct (Num.is_neg_zero a); rewrite ?compare_refl, ?Hc, ?Hc' by done; done.
  - rewrite compare_refl, Hc by done. done.
  - rewrite compare_refl, Hc' by done. done.
Qed.

Lemma max_ge a b :
  Num.is_nan a = false -> Num.is_nan b = false ->
  Num.leb a (Num.max a b) = true /\ Num.leb b (Num.max a b) = true.
Proof.
  intros Ha Hb. unfold Num.max. rewrite Ha, Hb. simpl.
  destruct (compare_total a b Ha Hb) as [c Hc].
  pose proof (compare_antisym _ _ _ Hc) as Hc'.
  unfold Num.ltb, SFltb, Num.leb, SFleb. rewrite Hc, Hc'.
  destruct c; simpl.
  - destruct (Num.is_neg_zero a); rewrite ?compare_refl, ?Hc, ?Hc' by done; done.
  - rewrite compare_refl, Hc by done. done.
  - rewrite compare_refl, Hc' by done. done.
Qed.

(** Arithmetic on finite numbers does not produce NaN. *)

Lemma shr_1_nonneg mrs : 0 <= shr_m mrs -> 0 <= shr_m (shr_1 mrs).
Proof.
  destruct mrs as [m r s]. simpl.
  destruct m as [|[p|p|]|[p|p|]]; simpl; lia.
Qed.

Lemma iter_pos_nonneg p : forall mrs,
  0 <= shr_m mrs -> 0 <= shr_m (SpecFloat.iter_pos shr_1 p mrs).
Proof.
  induction p as [p IH|p IH|]; intros mrs H; simpl.
  - apply IH, IH, shr_1_nonneg, H.
  - apply IH, IH, H.
  - apply shr_1_nonneg, H.
Qed.

Lemma shr_fexp_nonneg m e l :
  0 <= m -> 0 <= shr_m (fst (shr_fexp Num.prec Num.emax m e l)).
Proof.
  intros H. unfold shr_fexp, shr.
  assert (H0 : 0 <= shr_m (shr_record_of_loc m l)).
  { destruct l as [|[| |]]; simpl; exact H. }
  destruct (fexp _ _ _ - e); simpl; auto using iter_pos_nonneg.
Qed.

Lemma round_nearest_even_nonneg m l : 0 <= m -> 0 <= round_nearest_even m l.
Proof.
  intros H. unfold round_nearest_even.
  destruct l as [|[| |]]; try lia. destruct (Z.even m); lia.
Qed.

Lemma round_aux_not_nan sx mx ex lx :
  0 <= mx -> Num.is_nan (binary_round_aux Num.prec Num.emax sx mx ex lx) = false.
Proof.
  intros H. unfold binary_round_aux.
  pose proof (shr_fexp_nonneg mx ex lx H) as H1.
  destruct (shr_fexp Num.prec Num.emax mx ex lx) as [mrs' e'].
  simpl in H1.
  pose proof (shr_fexp_nonneg _ e' loc_Exact
                (round_nearest_even_nonneg _ (loc_of_shr_record mrs') H1)) as H2.
  destruct (shr_fexp Num.prec Num.emax _ e' loc_Exact) as [mrs'' e''].
  simpl in H2.
  destruct (shr_m mrs''); try lia; [reflexivity|].
  destruct (e'' <=? _); reflexivity.
Qed.

Lemma mul_finite x y :
  Num.is_finite x = true -> Num.is_finite y = true ->
  Num.is_nan (Num.mul x y) = false.
Proof.
  destruct x as [s|s| |s m e], y as [s'|s'| |s' m' e']; try discriminate;
    intros _ _; try reflexivity.
  apply round_aux_not_nan. lia.
Qed.

Lemma add_finite x y :
  Num.is_finite x = true -> Num.is_nan y = false ->
  Num.is_nan (Num.add x y) = false.
Proof.
  destruct x as [s|s| |s m e], y as [s'|s'| |s' m' e']; try discriminate;
    intros _ _; try reflexivity.
  - destruct s, s'; reflexivity.
  - unfold Num.add, SFadd, binary_normalize.
    destruct (_ + _); [reflexivity| |];
      unfold binary_round; destruct (shl_align _ _ _);
      apply round_aux_not_nan; lia.
Qed.

Lemma neg_finite x : Num.is_finite x = true -> Num.is_finite (Num.neg x) = true.
Proof. destruct x; auto. Qed.

Lemma finite_not_nan x : Num.is_finite x = true -> Num.is_nan x = false.
Proof. destruct x; auto; discriminate. Qed.

(** A corner computed from finite numbers is not NaN. *)
Lemma corner_not_nan c r n :
  Num.is_finite c = true -> Num.is_finite r = true -> Num.is_finite n = true ->
  Num.is_nan (Num.add c (Num.mul r n)) = false.
Proof. intros Hc Hr Hn. apply add_finite; [assumption|]. now apply mul_finite. Qed.

End NumFacts.

(** ** The result monad *)

Lemma obind_Ok {A B} (o : Outcome A) (f : A -> Outcome B) b :
  obind o f = Ok b -> exists a, o = Ok a /\ f a = Ok b.
Proof. destruct o; simpl; try discriminate. eauto. Qed.

Section MonadFacts.
Context {S A B : Type}.

Lemma bind_Ok (m : M S A) (f : A -> M S B) s b s' :
  bind m f s = Ok (b, s') ->
  exists a s1, m s = Ok (a, s1) /\ f a s1 = Ok (b, s').
Proof.
  unfold bind. intros H. apply obind_Ok in H as ([a s1] & H1 & H2). eauto.
Qed.

Lemma ret_Ok (a a' : A) (s s' : S) : ret a s = Ok (a', s') -> a = a' /\ s = s'.
Proof. intros [= -> ->]. auto. Qed.

Lemma pure_of_Ok (o : Outcome A) (s : S) a s' :
  pure_of o s = Ok (a, s') -> o = Ok a /\ s' = s.
Proof.
  unfold pure_of. intros H. apply obind_Ok in H as (a' & -> & [= -> ->]). auto.
Qed.

End MonadFacts.

Tactic Notation "inv_bind" hyp(H) "as" ident(a) ident(s) ident(Ha) :=
  apply bind_Ok in H; destruct H as (a & s & Ha & H).

(** ** The byte source *)

Section SourceFacts.

Lemma fetchChunk_wf s id : wf s -> wf (Source.fetchChunk s id) /\ same_file s (Source.fetchChunk s id).
Proof.
  intros [Hcs Hwf]. unfold Source.fetchChunk.
  destruct (Source.isReady s id) eqn:E; [repeat split; auto|].
  repeat split; simpl; auto.
  intros id' bs. destruct (decide (id = id')) as [<-|Hne].
  - rewrite lookup_insert_eq. intros [= <-]. reflexivity.
  - rewrite lookup_insert_ne by done. intros H%Hwf. exact H.
Qed.

Lemma fetchChunk_ready s id id' :
  Source.isReady s id' = true -> Source.isReady (Source.fetchChunk s id) id' = true.
Proof.
  unfold Source.fetchChunk. destruct (Source.isReady s id) eqn:E; [auto|].
  unfold Source.isReady. simpl. rewrite !bool_decide_eq_true.
  intros [bs H]. destruct (decide (id = id')) as [<-|Hne].
  - rewrite lookup_insert_eq. eauto.
  - rewrite lookup_insert_ne by done. eauto.
Qed.

Lemma fetchChunk_self s id : Source.isReady (Source.fetchChunk s id) id = true.
Proof.
  unfold Source.fetchChunk. destruct (Source.isReady s id) eqn:E; [auto|].
  unfold Source.isReady. simpl. rewrite bool_decide_eq_true, lookup_insert_eq. eauto.
Qed.

Lemma fetchAll_wf ids : forall s, wf s ->
  wf (foldl Source.fetchChunk s ids) /\ same_file s (foldl Source.fetchChunk s ids) /\
  (forall id, id ∈ ids -> Source.isReady (foldl Source.fetchChunk s ids) id = true) /\
  (forall id, Source.isReady s id = true -> Source.isReady (foldl Source.fetchChunk s ids) id = true).
Proof.
  induction ids as [|i ids IH]; intros s Hs; simpl.
  - split_and!; auto; [split; reflexivity|]. intros id H. inversion H.
  - destruct (fetchChunk_wf s i Hs) as [Hwf1 [Hb1 Hc1]].
    destruct (IH _ Hwf1) as (Hwf & [Hb Hc] & Hin & Hmono).
    split_and!; auto.
    + split; congruence.
    + intros id [->|H]%elem_of_cons; [|auto].
      apply Hmono, fetchChunk_self.
    + intros id H. apply Hmono, fetchChunk_ready, H.
Qed.

Lemma byteAt_ready s p :
  wf s -> 0 <= p -> Source.isReady s (p / chunkSize s) = true ->
  Source.byteAt s p = backing s !! Z.to_nat p.
Proof.
  intros [Hcs Hwf] Hp Hr. unfold Source.byteAt.
  unfold Source.isReady in Hr. rewrite bool_decide_eq_true in Hr.
  destruct Hr as [bs Hbs]. rewrite Hbs. simpl.
  rewrite (Hwf _ _ Hbs). unfold Source.chunkBytes.
  pose proof (Z.mod_pos_bound p (chunkSize s) Hcs) as Hm.
  pose proof (Z.div_mod p (chunkSize s) ltac:(lia)) as Hd.
  assert (0 <= p / chunkSize s) by (apply Z.div_pos; lia).
  rewrite lookup_take_lt by lia. rewrite lookup_drop. f_equal. nia.
Qed.


Lemma covered_chunk s offset len p :
  0 < chunkSize s -> offset <= p < offset + len ->
  p / chunkSize s ∈ Source.covered s offset len.
Proof.
  intros Hcs Hp. unfold Source.covered.
  destruct (Z.leb_spec len 0); [lia|].
  apply elem_of_seqZ.
  pose proof (Z.div_le_mono offset p (chunkSize s) Hcs ltac:(lia)).
  pose proof (Z.div_le_mono p (offset + len - 1) (chunkSize s) Hcs ltac:(lia)).
  lia.
Qed.

(** A read inside the file returns exactly the bytes of the file. *)
Lemma getBytes_reads s offset len :
  wf s -> 0 <= offset -> 0 < len -> offset + len <= Source.sourceLength s ->
  exists s',
    Source.getBytes offset len s
      = Ok (take (Z.to_nat len) (drop (Z.to_nat offset) (backing s)), s') /\
    wf s' /\ same_file s s'.
Proof.
  intros Hs Ho Hl Hend. unfold Source.getBytes.
  destruct (Z.leb_spec len 0); [lia|].
  destruct (Z.ltb_spec offset 0); [lia|].
  destruct (Z.leb_spec (Source.sourceLength s) offset); [lia|].
  destruct (Z.ltb_spec (Source.sourceLength s) (offset + len)); [lia|].
  simpl.
  destruct (fetchAll_wf (Source.covered s offset len) s Hs)
    as (Hwf & [Hb Hc] & Hin & _).
  set (s' := foldl Source.fetchChunk s (Source.covered s offset len)) in *.
  exists s'.
  assert (Hm : mapM (Source.byteAt s') (seqZ offset len)
               = Some (take (Z.to_nat len) (drop (Z.to_nat offset) (backing s)))).
  { apply mapM_Some. apply Forall2_same_length_lookup. split.
    - rewrite length_seqZ, length_take, length_drop.
      unfold Source.sourceLength in Hend. lia.
    - intros i p y Hp Hy.
      apply lookup_seqZ in Hp as [-> Hi].
      rewrite lookup_take_lt in Hy by lia. rewrite lookup_drop in Hy.
      rewrite byteAt_ready; try assumption; try lia.
      + rewrite Hb, <- Hy. f_equal. lia.
      + apply Hin. rewrite Hc. apply covered_chunk; [apply Hs|lia]. }
  rewrite Hm. split_and!; auto. split; assumption.
Qed.

End SourceFacts.

(** ** The IFD parser *)

Lemma decodeElement_eager t bs : Layer.is_lazy (Source.decodeElement t bs) = false.
Proof. destruct t; reflexivity. Qed.

Lemma decodeValue_eager t count bs :
  Layer.is_lazy (Source.decodeValue t count bs) = false.
Proof.
  unfold Source.decodeValue.
  assert (forall l : list (list Z),
             Layer.is_lazy
               (default JUndefined ((Source.decodeElement t <$> l) !! 0%nat)) = false).
  { intros [|x l]; simpl; [reflexivity|apply decodeElement_eager]. }
  destruct t; try reflexivity; destruct (count =? 1); auto.
Qed.

(** What [readType] returns is never a closure. *)
Lemma readType_eager offset tagType count s v s' :
  Source.readType offset tagType count s = Ok (v, s') -> Layer.is_lazy v = false.
Proof.
  unfold Source.readType. destruct (tif.tagTypeOf tagType); [|discriminate].
  intros H. inv_bind H as bs s1 Hbs. apply ret_Ok in H as [<- _].
  apply decodeValue_eager.
Qed.

Lemma hasBytes_state offset len s r s' :
  Source.hasBytes offset len s = Ok (r, s') -> s' = s.
Proof. intros [= _ <-]. reflexivity. Qed.

(** One turn of the loop: how the stored value was decided. *)
Lemma readEntry_decided pos s tiffTag value s' :
  Layer.readEntry pos s = Ok (Some (tiffTag, value), s') ->
  exists tagType count typeSize valueOffset resident,
    entryRead pos s tiffTag tagType count typeSize valueOffset resident /\
    (Layer.is_lazy value = false <-> count * typeSize <= 4 \/ resident = true) /\
    (Layer.is_lazy value = true -> value = JFun valueOffset tagType count).
Proof.
  unfold Layer.readEntry. intros H.
  inv_bind H as tagCode s1 Hcode.
  destruct (tif.TIFF_TAG tagCode) as [name|] eqn:Htag;
    [|now apply ret_Ok in H as [? _]].
  inv_bind H as tagType s2 Htype.
  inv_bind H as count s3 Hcount.
  destruct (tif.TIFF_SIZE tagType) as [typeSize|] eqn:Hsize; [|discriminate].
  destruct (Z.leb_spec (count * typeSize) 4) as [Hle|Hgt].
  - inv_bind H as v s4 Hv. apply ret_Ok in H as [Heq <-].
    injection Heq as <- <-.
    pose proof (readType_eager _ _ _ _ _ _ Hv) as He.
    exists tagType, count, typeSize, 0, false. split_and!.
    + exists tagCode, s1, s2, s3. split_and!; try assumption. lia.
    + split; auto.
    + rewrite He. discriminate.
  - inv_bind H as valueOffset s4 Hoff.
    inv_bind H as resident s5 Hres.
    pose proof (hasBytes_state _ _ _ _ _ Hres) as ->.
    assert (Hread : forall t, name = t ->
              entryRead pos s t tagType count typeSize valueOffset resident).
    { intros t <-. exists tagCode, s1, s2, s3. split_and!; try assumption.
      intros _. exists s4. split; assumption. }
    exists tagType, count, typeSize, valueOffset, resident.
    destruct resident; cbn [negb] in H.
    + inv_bind H as v s6 Hv. apply ret_Ok in H as [Heq <-].
      injection Heq as <- <-.
      rewrite (readType_eager _ _ _ _ _ _ Hv).
      split_and!; [auto | split; auto | discriminate].
    + apply ret_Ok in H as [Heq <-]. injection Heq as <- <-. simpl.
      split_and!; [auto | | reflexivity].
      split; [discriminate|]. intros [?|?]; [lia|discriminate].
Qed.

Lemma readEntries_S byteStart i n image s :
  Layer.readEntries byteStart i (S n) image s =
  obind (Layer.readEntry (byteStart + 12 * Z.of_nat i) s)
        (fun '(e, s1) =>
           Layer.readEntries byteStart (S i) n (Layer.assign e image) s1).
Proof. reflexivity. Qed.

(** The loop, one turn at a time from the end. *)
Lemma readEntries_snoc byteStart n : forall i image s,
  Layer.readEntries byteStart i (S n) image s =
  obind (Layer.readEntries byteStart i n image s)
        (fun '(image', sn) =>
           obind (Layer.readEntry (byteStart + 12 * Z.of_nat (i + n)) sn)
                 (fun '(e, s') => Ok (Layer.assign e image', s'))).
Proof.
  induction n as [|n IH]; intros i image s.
  - rewrite readEntries_S. simpl. rewrite Nat.add_0_r.
    destruct (Layer.readEntry _ s) as [[e s1]| | |]; reflexivity.
  - rewrite readEntries_S, (readEntries_S byteStart i n).
    destruct (Layer.readEntry _ s) as [[e s1]| | |]; try reflexivity.
    cbn [obind]. rewrite IH. replace (S i + n)%nat with (i + S n)%nat by lia.
    reflexivity.
Qed.

Lemma readEntries_step byteStart n image s image' s' :
  Layer.readEntries byteStart 0 (S n) image s = Ok (image', s') ->
  exists img sn e,
    Layer.readEntries byteStart 0 n image s = Ok (img, sn) /\
    Layer.readEntry (byteStart + 12 * Z.of_nat n) sn = Ok (e, s') /\
    image' = Layer.assign e img.
Proof.
  rewrite readEntries_snoc. intros H.
  apply obind_Ok in H as ([img sn] & H1 & H).
  apply obind_Ok in H as ([e s1] & H2 & [= <- <-]).
  eauto 10.
Qed.

(** Every stored tag was stored by some turn of the loop. *)
Lemma readEntries_stored byteStart n : forall s image s',
  Layer.readEntries byteStart 0 n ∅ s = Ok (image, s') ->
  forall tiffTag value, image !! tiffTag = Some value ->
  exists (j : nat) imagej sj sj',
    (j < n)%nat /\
    Layer.readEntries byteStart 0 j ∅ s = Ok (imagej, sj) /\
    Layer.readEntry (byteStart + 12 * Z.of_nat j) sj
      = Ok (Some (tiffTag, value), sj').
Proof.
  induction n as [|n IH]; intros s image s' H tiffTag value Hv.
  - apply ret_Ok in H as [<- _]. rewrite lookup_empty in Hv. discriminate.
  - apply readEntries_step in H as (img & sn & e & Hn & He & ->).
    assert (Hold : img !! tiffTag = Some value ->
              exists (j : nat) imagej sj sj',
                (j < S n)%nat /\
                Layer.readEntries byteStart 0 j ∅ s = Ok (imagej, sj) /\
                Layer.readEntry (byteStart + 12 * Z.of_nat j) sj
                  = Ok (Some (tiffTag, value), sj')).
    { intros Hi. destruct (IH _ _ _ Hn _ _ Hi) as (j & ij & sj & sj' & ? & ? & ?).
      exists j, ij, sj, sj'. split_and!; auto. }
    destruct e as [[name v]|]; simpl in Hv; [|auto].
    destruct (decide (name = tiffTag)) as [->|Hne].
    + rewrite lookup_insert_eq in Hv. injection Hv as ->.
      exists n, img, sn, s'. split_and!; auto.
    + rewrite lookup_insert_ne in Hv by done. auto.
Qed.

(** ** The facade *)

Lemma onSource_keeps {A} (m : M CogSource A) l a l' :
  Layer.onSource m l = Ok (a, l') ->
  images l' = images l /\ version l' = version l.
Proof.
  unfold Layer.onSource. intros H.
  apply obind_Ok in H as ([a' s'] & _ & [= _ <-]). split; reflexivity.
Qed.

(** [getTileRaw] leaves the parsed images as they are. *)
Lemma getTileRaw_images x y z l tile l' :
  Layer.getTileRaw x y z l = Ok (tile, l') -> images l' = images l.
Proof.
  unfold Layer.getTileRaw. intros H.
  inv_bind H as l0 l1 Hget. injection Hget as <- <-.
  inv_bind H as req l2 Hreq. destruct req as [[mime off] cnt].
  apply pure_of_Ok in Hreq as [_ ->].
  inv_bind H as o l3 Ho. apply pure_of_Ok in Ho as [_ ->].
  inv_bind H as c l4 Hc. apply pure_of_Ok in Hc as [_ ->].
  inv_bind H as bs l5 Hbs. apply ret_Ok in H as [_ <-].
  now apply onSource_keeps in Hbs as [-> _].
Qed.

(** Whatever index [getTileRaw] arrives at, it returns the bytes of the
    file at the offset and of the byte count found there. *)
Lemma getTileRaw_serves_request x y z l mime off cnt offset count :
  wf (source l) ->
  Layer.tileRequest (images l) x y z = Ok (mime, off, cnt) ->
  Layer.asNatural off = Ok offset -> Layer.asNatural cnt = Ok count ->
  0 < count -> offset + count <= Source.sourceLength (source l) ->
  exists l',
    Layer.getTileRaw x y z l
      = Ok (Layer.mkTile mime
              (take (Z.to_nat count) (drop (Z.to_nat offset) (backing (source l)))),
            l') /\
    Z.of_nat (length (take (Z.to_nat count)
                           (drop (Z.to_nat offset) (backing (source l))))) = count.
Proof.
  intros Hwf Hreq Hoff Hcnt Hc Hend.
  assert (Ho : 0 <= offset).
  { unfold Layer.asNatural in Hoff. destruct off; try discriminate.
    destruct (Num.to_Z n); try discriminate.
    destruct (Z.leb_spec 0 z0); [|discriminate]. injection Hoff as <-. lia. }
  destruct (getBytes_reads _ _ _ Hwf Ho Hc Hend) as (s' & Hread & _ & _).
  unfold Layer.getTileRaw, bind, get, pure_of, Layer.onSource. simpl.
  rewrite Hreq. simpl. rewrite Hoff. simpl. rewrite Hcnt. simpl.
  rewrite Hread. simpl. eexists. split; [reflexivity|].
  rewrite length_take, length_drop. unfold Source.sourceLength in Hend. lia.
Qed.

(** Each IFD visited pushes one image. *)
Lemma processIfd_pushes fuel : forall offset l u l',
  Layer.processIfd fuel offset l = Ok (u, l') ->
  version l' = version l /\
  exists image rest, images l' = images l ++ image :: rest.
Proof.
  induction fuel as [|fuel IH]; intros offset l u l' H; [discriminate|].
  simpl in H. inv_bind H as ifd l1 Hifd. destruct ifd as [nextOffset image].
  apply onSource_keeps in Hifd as [Hi Hv].
  inv_bind H as u1 l2 Hpush. injection Hpush as _ <-.
  destruct (negb (nextOffset =? 0)).
  - apply IH in H as [Hv' (image' & rest & Hi')]. simpl in *.
    split; [congruence|]. rewrite Hi', Hi, <- app_assoc. simpl. eauto.
  - apply ret_Ok in H as [_ <-]. simpl. split; [congruence|].
    rewrite Hi. eauto.
Qed.

(** When [init] returns, the version is 42 and at least one image was
    pushed: the IFD the header points at, even if it has no entries. *)
Lemma init_version_and_images fuel l u l' :
  Layer.init fuel l = Ok (u, l') ->
  version l' = Some 42 /\
  exists image rest, images l' = images l ++ image :: rest.
Proof.
  unfold Layer.init, Layer.fetchHeader. intros H.
  inv_bind H as endian l1 Hendian. apply onSource_keeps in Hendian as [Hi1 _].
  inv_bind H as u1 l2 Hle. injection Hle as _ <-.
  destruct (negb (endian =? Layer.ENDIAN_LITTLE)); [discriminate|].
  inv_bind H as v l3 Hversion. apply onSource_keeps in Hversion as [Hi3 _].
  simpl in Hi3.
  inv_bind H as u2 l4 Hset. injection Hset as _ <-.
  destruct (v =? Layer.VERSION_BIGTIFF); [discriminate|].
  destruct (Z.eqb_spec v Layer.VERSION_TIFF) as [->|]; [|discriminate].
  cbn [negb] in H.
  inv_bind H as offset l5 Hoffset. apply onSource_keeps in Hoffset as [Hi5 Hv5].
  simpl in Hi5, Hv5.
  inv_bind H as ready l6 Hready. apply onSource_keeps in Hready as [Hi6 Hv6].
  destruct (negb ready); [discriminate|].
  apply processIfd_pushes in H as [Hv (image & rest & Hi)].
  split; [rewrite Hv, Hv6, Hv5; reflexivity|].
  exists image, rest. congruence.
Qed.

(** ** The tile locator on the scenario files *)

(** C1 (the code departs from the claim). The image of S6 has 3 x 2 tiles
    and six offsets and byte counts. The claim locates tile (2, 1) at
    index 1*3+2 = 5, six bytes at offset 143. [getTileRaw(2, 1, 0)]
    multiplies [y] by [nyTiles = ceil(ImageLength / TileLength) = 2]: it
    asks the source for index 4, offset 138 and byte count 5, and returns
    the five bytes of tile 4. On the 1 x 3 image of [Scenario.tall] the
    tile (0, 2) is in range and [getTileRaw(0, 2, 0)] refuses it: its index
    is 2*3+0 = 6, above the three offsets. *)
Theorem getTileRaw_row_stride_S6 :
  (exists l image,
      Scenario.loaded Scenario.S6 Scenario.defaultChunk = Some l /\
      images l = [image] /\
      Layer.prop image "ImageWidth" = JNum (Num.of_Z 600) /\
      Layer.prop image "ImageLength" = JNum (Num.of_Z 400) /\
      Layer.prop image "TileWidth" = JNum (Num.of_Z 256) /\
      Layer.prop image "TileLength" = JNum (Num.of_Z 256) /\
      Layer.prop image "TileOffsets"
        = Scenario.nums [128; 129; 131; 134; 138; 143] /\
      Layer.prop image "TileByteCounts" = Scenario.nums [1; 2; 3; 4; 5; 6] /\
      Layer.tileRequest (images l) (Num.of_Z 2) (Num.of_Z 1) (Num.of_Z 0)
        = Ok (JStr "image/webp", JNum (Num.of_Z 138), JNum (Num.of_Z 5)) /\
      tileBytes (Layer.getTileRaw (Num.of_Z 2) (Num.of_Z 1) (Num.of_Z 0) l)
        = Ok (replicate 5 0xA4))
  /\ (exists l image,
      Scenario.loaded Scenario.tall Scenario.defaultChunk = Some l /\
      images l = [image] /\
      Layer.prop image "TileOffsets" = Scenario.nums [86; 87; 88] /\
      tileBytes (Layer.getTileRaw (Num.of_Z 0) (Num.of_Z 0) (Num.of_Z 0) l)
        = Ok [0xC0] /\
      Layer.getTileRaw (Num.of_Z 0) (Num.of_Z 2) (Num.of_Z 0) l
        = Throw (TileDoesNotExist (Num.of_Z 0) (Num.of_Z 2) (Num.of_Z 0))).
Proof.
  split.
  - eexists _, _. split; [vm_compute; reflexivity|].
    split; [reflexivity|].
    split_and!; vm_compute; reflexivity.
  - eexists _, _. split; [vm_compute; reflexivity|].
    split; [reflexivity|].
    split_and!; vm_compute; reflexivity.
Qed.

(** C2 (the code departs from the claim). On the image of S6, for which
    [tileCount] gives [nx = 3], [ny = 2], the column [x = 3] is out of
    range, yet [getTileRaw(3, 0, 0)] returns
    the four bytes of tile 3: the only test is [idx > TileOffsets.length]
    on [idx = 0*2+3]. The test is also off by one: for [(0, 3)] the index 6
    equals the length and passes, and the offset and the byte count handed
    to the source are [undefined]. *)
Theorem getTileRaw_out_of_range_S6 :
  exists l,
    Scenario.loaded Scenario.S6 Scenario.defaultChunk = Some l /\
    NoFacade.tileCount Scenario.gridB
      = Ok (NoFacade.mkTileCount (Num.of_Z 3) (Num.of_Z 2) (Num.of_Z 6)) /\
    tileBytes (Layer.getTileRaw (Num.of_Z 3) (Num.of_Z 0) (Num.of_Z 0) l)
      = Ok (replicate 4 0xA3) /\
    Layer.tileRequest (images l) (Num.of_Z 0) (Num.of_Z 3) (Num.of_Z 0)
      = Ok (JStr "image/webp", JUndefined, JUndefined).
Proof.
  eexists. split; [vm_compute; reflexivity|].
  split_and!; vm_compute; reflexivity.
Qed.

(** C3 (the code departs from the claim). After [init] on S5, read in
    chunks of 32 bytes, chunks 0 to 3 are resident and [TileOffsets] is
    the closure over (200, LONG, 4). [getTileRaw] never calls it: the
    request for tile (0, 0) is made without touching the source and carries
    the offset [undefined], and tile (1, 0) is refused because the closure
    has length 0. *)
Theorem getTileRaw_lazy_offsets_S5 :
  exists l image,
    Scenario.loaded Scenario.S5 Scenario.S5_chunk = Some l /\
    images l = [image] /\
    fetched (source l) = [0; 1; 2; 3] /\
    Layer.prop image "TileOffsets" = JFun 200 4 4 /\
    Layer.prop image "TileByteCounts" = Scenario.nums [2; 3; 4; 5] /\
    Layer.tileRequest (images l) (Num.of_Z 0) (Num.of_Z 0) (Num.of_Z 0)
      = Ok (JStr "image/webp", JUndefined, JNum (Num.of_Z 2)) /\
    Layer.getTileRaw (Num.of_Z 0) (Num.of_Z 0) (Num.of_Z 0) l = Uncovered /\
    Layer.getTileRaw (Num.of_Z 1) (Num.of_Z 0) (Num.of_Z 0) l
      = Throw (TileDoesNotExist (Num.of_Z 1) (Num.of_Z 0) (Num.of_Z 0)).
Proof.
  eexists _, _. split; [vm_compute; reflexivity|].
  split; [reflexivity|].
  split_and!; vm_compute; reflexivity.
Qed.

(** ** Eager and lazy tags *)

(** C4. After [readIfd] has parsed an IFD, every tag stored in the image
    was stored by a turn [j] of the loop, and there it is eager (not a
    closure) if and only if [count * typeSize <= 4] or [hasBytes(valueOffset,
    tagLen)] was true when the turn ran; otherwise it is the closure over
    [(valueOffset, tagType, count)]. Nothing turns a stored value back:
    [getTileRaw] leaves the images as they are, and [init] only appends to
    them. *)
Theorem stored_tag_eager_iff :
  (forall offset s nextOffset image s',
      Layer.readIfd offset s = Ok ((nextOffset, image), s') ->
      forall tiffTag value,
        image !! tiffTag = Some value ->
        exists tagCount s0 (j : nat) imagej sj
               tagType count typeSize valueOffset resident,
          Source.uint16 offset s = Ok (tagCount, s0) /\
          Z.of_nat j < tagCount /\
          Layer.readEntries (offset + 2) 0 j ∅ s0 = Ok (imagej, sj) /\
          entryRead (offset + 2 + 12 * Z.of_nat j) sj
                    tiffTag tagType count typeSize valueOffset resident /\
          (Layer.is_lazy value = false <->
             count * typeSize <= 4 \/ resident = true) /\
          (Layer.is_lazy value = true -> value = JFun valueOffset tagType count))
  /\ (forall x y z l tile l',
      Layer.getTileRaw x y z l = Ok (tile, l') -> images l' = images l)
  /\ (forall fuel l u l',
      Layer.init fuel l = Ok (u, l') -> exists more, images l' = images l ++ more).
Proof.
  split; [|split; [apply getTileRaw_images|]];
    [|intros fuel l u l' H;
      apply init_version_and_images in H as [_ (image & rest & H)]; eauto].
  intros offset s nextOffset image s' H tiffTag value Hv.
  unfold Layer.readIfd in H.
  inv_bind H as tagCount s0 Hcount.
  inv_bind H as img s1 Hloop.
  inv_bind H as next s2 Hnext. apply ret_Ok in H as [Heq _].
  injection Heq as _ ->.
  destruct (readEntries_stored _ _ _ _ _ Hloop _ _ Hv)
    as (j & imagej & sj & sj' & Hj & Hpre & Hentry).
  destruct (readEntry_decided _ _ _ _ _ Hentry)
    as (tagType & count & typeSize & valueOffset & resident & Hread & Hiff & Hlazy).
  exists tagCount, s0, j, imagej, sj, tagType, count, typeSize, valueOffset, resident.
  split_and!; auto. lia.
Qed.

(** The IFD of S5 read in chunks of 32 bytes: [TileOffsets] is stored lazy,
    and a tile read on S6 keeps the images. *)
Lemma stored_tag_eager_iff_S5 :
  (exists image s',
      Layer.readIfd 8 (Source.open Scenario.S5 Scenario.S5_chunk)
        = Ok ((0, image), s') /\
      image !! "TileOffsets"%string = Some (JFun 200 4 4) /\
      exists tagCount s0 (j : nat) imagej sj
             tagType count typeSize valueOffset resident,
        Source.uint16 8 (Source.open Scenario.S5 Scenario.S5_chunk)
          = Ok (tagCount, s0) /\
        Z.of_nat j < tagCount /\
        Layer.readEntries (8 + 2) 0 j ∅ s0 = Ok (imagej, sj) /\
        entryRead (8 + 2 + 12 * Z.of_nat j) sj
                  "TileOffsets" tagType count typeSize valueOffset resident /\
        (Layer.is_lazy (JFun 200 4 4) = false <->
           count * typeSize <= 4 \/ resident = true) /\
        (Layer.is_lazy (JFun 200 4 4) = true ->
         JFun 200 4 4 = JFun valueOffset tagType count))
  /\ (exists l tile l',
      Scenario.loaded Scenario.S6 Scenario.defaultChunk = Some l /\
      Layer.getTileRaw (Num.of_Z 2) (Num.of_Z 1) (Num.of_Z 0) l = Ok (tile, l') /\
      images l' = images l)
  /\ (exists l more,
      Layer.init 1 (Layer.new (Source.open Scenario.S1_closed Scenario.defaultChunk))
        = Ok (tt, l) /\
      images l = [] ++ more).
Proof.
  split; [|split].
  - assert (E : exists image s',
               Layer.readIfd 8 (Source.open Scenario.S5 Scenario.S5_chunk)
                 = Ok ((0, image), s') /\
               image !! "TileOffsets"%string = Some (JFun 200 4 4)).
    { eexists _, _. split; [vm_compute; reflexivity|].
      vm_compute; reflexivity. }
    destruct E as (image & s' & E & Hv).
    exists image, s'. split; [exact E|]. split; [exact Hv|].
    exact (proj1 stored_tag_eager_iff _ _ _ _ _ E _ _ Hv).
  - assert (E : exists l tile l',
               Scenario.loaded Scenario.S6 Scenario.defaultChunk = Some l /\
               Layer.getTileRaw (Num.of_Z 2) (Num.of_Z 1) (Num.of_Z 0) l
                 = Ok (tile, l')).
    { eexists _, _, _. split; [vm_compute; reflexivity|].
      vm_compute; reflexivity. }
    destruct E as (l & tile & l' & El & E).
    exists l, tile, l'. split; [exact El|]. split; [exact E|].
    exact (proj1 (proj2 stored_tag_eager_iff) _ _ _ _ _ _ E).
  - assert (E : exists l,
               Layer.init 1 (Layer.new (Source.open Scenario.S1_closed
                                                    Scenario.defaultChunk))
                 = Ok (tt, l)).
    { eexists. vm_compute; reflexivity. }
    destruct E as (l & E).
    destruct (proj2 (proj2 stored_tag_eager_iff) _ _ _ _ E) as (more & Hmore).
    exists l, more. split; [exact E | exact Hmore].
Defined.

(** ** The header and the IFD chain *)

(** C5 (as amended). On the ten bytes of S1 followed by the four-byte
    next-IFD offset 00 00 00 00 that [readIfd] reads after the entries,
    [init()] succeeds, the version is 42, and [images] holds exactly one
    image, which has no tags. *)
Theorem init_S1_closed :
  exists l,
    Layer.init 1 (Layer.new (Source.open Scenario.S1_closed Scenario.defaultChunk))
      = Ok (tt, l) /\
    version l = Some 42 /\
    images l = [∅].
Proof.
  eexists. split; [vm_compute; reflexivity|].
  split; vm_compute; reflexivity.
Qed.

(** C5 as stated fails: on the ten bytes of S1 [init()] does not succeed
    with an empty [images], whatever the chunk size. With the default chunk
    size the read of the next-IFD offset at byte 10 leaves the file. *)
Lemma init_S1_not_empty :
  ~ (exists fuel chunk l,
        Layer.init fuel (Layer.new (Source.open Scenario.S1 chunk)) = Ok (tt, l) /\
        version l = Some 42 /\ images l = [])
  /\ Layer.init 1 (Layer.new (Source.open Scenario.S1 Scenario.defaultChunk))
     = Throw (OffsetOutOfRange 10).
Proof.
  split; [|vm_compute; reflexivity].
  intros (fuel & chunk & l & H & _ & Hi).
  apply init_version_and_images in H as [_ (image & rest & H)].
  rewrite Hi in H. simpl in H. discriminate.
Qed.

(** ** A tag code that appears twice *)

(** C6 (as amended). When two entries [i < j] of an IFD store under the
    same tag name and no entry after [j] does, the parsed image holds the
    value decoded from entry [j]: each assignment [image[tiffTag] = value]
    replaces the earlier one, so the last occurrence is kept. *)
Theorem last_entry_wins offset s nextOffset image s' tagCount s0
    (i j : nat) tiffTag first last :
  Layer.readIfd offset s = Ok ((nextOffset, image), s') ->
  Source.uint16 offset s = Ok (tagCount, s0) ->
  (i < j)%nat -> Z.of_nat j < tagCount ->
  entryOf (offset + 2) i s0 = Ok (Some (tiffTag, first)) ->
  entryOf (offset + 2) j s0 = Ok (Some (tiffTag, last)) ->
  (forall (k : nat) v,
      (j < k)%nat -> Z.of_nat k < tagCount ->
      entryOf (offset + 2) k s0 <> Ok (Some (tiffTag, v))) ->
  image !! tiffTag = Some last.
Proof.
  intros H Hcount _ Hj _ Hlast Hlater.
  unfold Layer.readIfd in H.
  inv_bind H as tagCount' s0' Hcount'.
  rewrite Hcount in Hcount'. injection Hcount' as <- <-.
  inv_bind H as img s1 Hloop.
  inv_bind H as next s2 Hnext. apply ret_Ok in H as [Heq _].
  injection Heq as _ ->.
  assert (Hn : (j < Z.to_nat tagCount)%nat) by lia.
  assert (Hk : forall (k : nat) v, (j < k < Z.to_nat tagCount)%nat ->
                entryOf (offset + 2) k s0 <> Ok (Some (tiffTag, v))).
  { intros k v [? ?]. apply Hlater; lia. }
  clear - Hloop Hn Hk Hlast. revert image s1 Hloop Hn Hk.
  generalize (Z.to_nat tagCount) as n.
  induction n as [|n IH]; intros image s1 Hloop Hn Hk; [lia|].
  apply readEntries_step in Hloop as (img & sn & e & Hpre & He & ->).
  assert (Hen : entryOf (offset + 2) n s0 = Ok e).
  { unfold entryOf. rewrite Hpre. simpl. rewrite He. reflexivity. }
  destruct (decide (j = n)) as [->|Hne].
  - rewrite Hen in Hlast. injection Hlast as ->. simpl. apply lookup_insert_eq.
  - assert (Hi : img !! tiffTag = Some last).
    { apply (IH _ _ Hpre); [lia|]. intros k v ?. apply Hk. lia. }
    destruct e as [[name v]|]; simpl; [|exact Hi].
    destruct (decide (name = tiffTag)) as [->|Hname].
    + exfalso. apply (Hk n v); [lia|exact Hen].
    + rewrite lookup_insert_ne by done. exact Hi.
Qed.

(** On the IFD of [Scenario.twice] the second ImageWidth entry is the last
    one; its value 800 is the one kept. *)
Lemma last_entry_wins_twice :
  exists image s' s0,
    Layer.readIfd 8 (Source.open Scenario.twice Scenario.defaultChunk)
      = Ok ((0, image), s') /\
    Source.uint16 8 (Source.open Scenario.twice Scenario.defaultChunk)
      = Ok (2, s0) /\
    entryOf (8 + 2) 0 s0 = Ok (Some ("ImageWidth"%string, JNum (Num.of_Z 600))) /\
    entryOf (8 + 2) 1 s0 = Ok (Some ("ImageWidth"%string, JNum (Num.of_Z 800))) /\
    image !! "ImageWidth"%string = Some (JNum (Num.of_Z 800)).
Proof.
  assert (E : exists image s' s0,
             Layer.readIfd 8 (Source.open Scenario.twice Scenario.defaultChunk)
               = Ok ((0, image), s') /\
             Source.uint16 8 (Source.open Scenario.twice Scenario.defaultChunk)
               = Ok (2, s0) /\
             entryOf (8 + 2) 0 s0
               = Ok (Some ("ImageWidth"%string, JNum (Num.of_Z 600))) /\
             entryOf (8 + 2) 1 s0
               = Ok (Some ("ImageWidth"%string, JNum (Num.of_Z 800)))).
  { eexists _, _, _. split; [vm_compute; reflexivity|].
    split; [vm_compute; reflexivity|].
    split; vm_compute; reflexivity. }
  destruct E as (image & s' & s0 & E & Hcount & Hfirst & Hlast).
  exists image, s', s0. split_and!; try assumption.
  apply (last_entry_wins 8 _ 0 image s' 2 s0 0%nat 1%nat
           "ImageWidth"%string (JNum (Num.of_Z 600)) (JNum (Num.of_Z 800))
           E Hcount); [lia | lia | exact Hfirst | exact Hlast |].
  intros k v Hk1 Hk2. lia.
Defined.

(** C6 as stated fails: in [Scenario.twice] the first ImageWidth entry
    decodes 600 and the second 800, and the parsed image holds 800. *)
Lemma twice_keeps_second :
  exists l image,
    Scenario.loaded Scenario.twice Scenario.defaultChunk = Some l /\
    images l = [image] /\
    entryOf 10 0 (Source.open Scenario.twice Scenario.defaultChunk)
      = Ok (Some ("ImageWidth"%string, JNum (Num.of_Z 600))) /\
    entryOf 10 1 (Source.open Scenario.twice Scenario.defaultChunk)
      = Ok (Some ("ImageWidth"%string, JNum (Num.of_Z 800))) /\
    image !! "ImageWidth"%string = Some (JNum (Num.of_Z 800)) /\
    image !! "ImageWidth"%string <> Some (JNum (Num.of_Z 600)).
Proof.
  eexists _, _. split; [vm_compute; reflexivity|].
  split; [reflexivity|].
  split; [vm_compute; reflexivity|].
  split; [vm_compute; reflexivity|].
  split; [vm_compute; reflexivity|].
  vm_compute. discriminate.
Qed.

(** ** The image view *)

Section ImageView.
Context {Facade : Type}.
Variable a : WithFacade.CogTifImage Facade.
Variable b : NoFacade.CogTifImage.
Hypothesis same_tags : WithFacade.tags a = NoFacade.tags b.

Lemma value_agree tag : WithFacade.value a tag = NoFacade.value b tag.
Proof. unfold WithFacade.value, NoFacade.value. now rewrite same_tags. Qed.

Lemma length_test v :
  JS.nullish v = false ->
  exists len,
    JS.length v = Ok len /\
    (strictEqNum len 6 = true <-> lengthOf v = Some 6%nat).
Proof.
  destruct v; simpl; try discriminate; intros _; eexists; (split; [reflexivity|]);
    simpl; try (split; discriminate).
  - rewrite of_nat_eq_6. split; congruence.
  - change (List.length elems) with (length elems).
    rewrite of_nat_eq_6. split; congruence.
Qed.

Lemma table_code_roundtrip code mime :
  tif.compressionTable code = Some mime -> Num.to_Z (Num.of_Z code) = Some code.
Proof.
  unfold tif.compressionTable.
  repeat match goal with
         | |- context [?x =? ?k] =>
             destruct (Z.eqb_spec x k) as [->|_]; [reflexivity|]
         end.
  discriminate.
Qed.

(** C7 (as amended). For two images over the same tags, one of each class:
    when ModelTiepoint holds six elements both [origin] accessors return
    elements 3, 4, 5; when the tag is absent or its length is not 6, the
    class with the facade reference throws 'Tiff image does not have a
    ModelTiepoint' and the class without it returns [null]. *)
Theorem origin_by_class :
  (forall e0 e1 e2 e3 e4 e5,
      NoFacade.tags b !! tif.TiffTag.ModelTiepoint
        = Some (TagEager (JArr [e0; e1; e2; e3; e4; e5])) ->
      WithFacade.origin a = Ok (JArr [e3; e4; e5]) /\
      NoFacade.origin b = Ok (JArr [e3; e4; e5]))
  /\ (NoFacade.tags b !! tif.TiffTag.ModelTiepoint = None \/
      lengthOf (NoFacade.value b tif.TiffTag.ModelTiepoint) <> Some 6%nat ->
      WithFacade.origin a = Throw NoModelTiepoint /\
      NoFacade.origin b = Ok JNull).
Proof.
  split.
  - intros e0 e1 e2 e3 e4 e5 H.
    unfold WithFacade.origin, NoFacade.origin. rewrite value_agree.
    unfold NoFacade.value. rewrite H. split; reflexivity.
  - intros H.
    assert (Hlen : lengthOf (NoFacade.value b tif.TiffTag.ModelTiepoint)
                   <> Some 6%nat).
    { destruct H as [H|H]; [|exact H]. unfold NoFacade.value. now rewrite H. }
    clear H. unfold WithFacade.origin, NoFacade.origin. rewrite value_agree.
    destruct (JS.nullish (NoFacade.value b tif.TiffTag.ModelTiepoint)) eqn:Hn;
      [split; reflexivity|].
    destruct (length_test _ Hn) as (len & -> & Hiff). simpl.
    destruct (strictEqNum len 6) eqn:E.
    + exfalso. apply Hlen, Hiff. reflexivity.
    + split; [reflexivity|]. now destruct (JS.truthy _).
Qed.

(** C8 (as amended). Both [compression] accessors return the media type of
    the table for a Compression code in the table, [null] when the tag is
    absent or its value is not a number, and [undefined] for a number that
    is no key of the table. *)
Theorem compression_by_code :
  let c := NoFacade.value b tif.TiffTag.Compression in
  (forall code mime,
      c = JNum (Num.of_Z code) -> tif.compressionTable code = Some mime ->
      WithFacade.compression a = Ok (JStr mime) /\
      NoFacade.compression b = Ok (JStr mime))
  /\ (NoFacade.tags b !! tif.TiffTag.Compression = None \/
      JS.is_number c = false ->
      WithFacade.compression a = Ok JNull /\
      NoFacade.compression b = Ok JNull)
  /\ (forall n,
      c = JNum n ->
      (forall code, Num.to_Z n = Some code -> tif.compressionTable code = None) ->
      WithFacade.compression a = Ok JUndefined /\
      NoFacade.compression b = Ok JUndefined).
Proof.
  intros c. unfold WithFacade.compression, NoFacade.compression.
  rewrite value_agree. fold c. repeat split.
  1,2: rewrite H; simpl; rewrite (table_code_roundtrip _ _ H0), H0; reflexivity.
  1,2: assert (Hc : JS.nullish c || negb (JS.is_number c) = true)
         by (destruct H as [H|H];
             [subst c; unfold NoFacade.value; rewrite H; reflexivity
             |rewrite H; apply orb_true_r]);
       rewrite Hc; reflexivity.
  1,2: rewrite H; simpl; destruct (Num.to_Z n) as [code|] eqn:E;
       [rewrite (H0 code eq_refl)|]; reflexivity.
Qed.

(** C9 (as amended). When ModelTiepoint holds six elements with numbers
    [x1, y1] at 3 and 4, ModelPixelScale starts with two numbers and
    ImageWidth and ImageHeight are numbers, [bbox] of either class is
    [[min(x1,x2), min(y1,y2), max(x1,x2), max(y1,y2)]] with
    [x2 = x1 + sx * width] and [y2 = y1 + (-sy) * height]; and when none of
    [x1, y1, x2, y2] is NaN the box contains both [(x1, y1)] and
    [(x2, y2)]; that is so in particular when the tie point, the scale and
    the size are finite numbers. *)
Theorem bbox_corners t0 t1 t2 x1 y1 t5 sx sy rest w h :
  NoFacade.value b tif.TiffTag.ModelTiepoint
    = JArr [t0; t1; t2; JNum x1; JNum y1; t5] ->
  NoFacade.value b tif.TiffTag.ModelPixelScale
    = JArr (JNum sx :: JNum sy :: rest) ->
  NoFacade.value b tif.TiffTag.ImageWidth = JNum w ->
  NoFacade.value b tif.TiffTag.ImageHeight = JNum h ->
  let x2 := Num.add x1 (Num.mul sx w) in
  let y2 := Num.add y1 (Num.mul (Num.neg sy) h) in
  let box := JArr [JNum (Num.min x1 x2); JNum (Num.min y1 y2);
                   JNum (Num.max x1 x2); JNum (Num.max y1 y2)] in
  WithFacade.bbox a = Ok box
  /\ NoFacade.bbox b = Ok box
  /\ (Num.is_nan x1 = false -> Num.is_nan y1 = false ->
      Num.is_nan x2 = false -> Num.is_nan y2 = false ->
      boxContains box x1 y1 = true /\ boxContains box x2 y2 = true)
  /\ (Num.is_finite x1 = true -> Num.is_finite y1 = true ->
      Num.is_finite sx = true -> Num.is_finite sy = true ->
      Num.is_finite w = true -> Num.is_finite h = true ->
      boxContains box x1 y1 = true /\ boxContains box x2 y2 = true).
Proof.
  intros Htp Hps Hw Hh x2 y2 box.
  assert (Hin : Num.is_nan x1 = false -> Num.is_nan y1 = false ->
                Num.is_nan x2 = false -> Num.is_nan y2 = false ->
                boxContains box x1 y1 = true /\ boxContains box x2 y2 = true).
  { intros Hx1 Hy1 Hx2 Hy2. unfold box, boxContains.
    destruct (min_le x1 x2 Hx1 Hx2) as [-> ->].
    destruct (min_le y1 y2 Hy1 Hy2) as [-> ->].
    destruct (max_ge x1 x2 Hx1 Hx2) as [-> ->].
    destruct (max_ge y1 y2 Hy1 Hy2) as [-> ->].
    split; reflexivity. }
  assert (Hb : NoFacade.bbox b = Ok box).
  { unfold NoFacade.bbox, NoFacade.origin, NoFacade.resolution, NoFacade.size.
    rewrite Htp, Hps, Hw, Hh. simpl JS.nullish. simpl JS.truthy. cbv iota.
    change (JS.length (JArr [t0; t1; t2; JNum x1; JNum y1; t5]))
      with (Ok (JNum (Num.of_Z 6))).
    reflexivity. }
  split; [|split; [exact Hb|split; [exact Hin|]]].
  - rewrite <- Hb. unfold WithFacade.bbox, NoFacade.bbox.
    unfold WithFacade.origin, WithFacade.resolution, WithFacade.size.
    unfold NoFacade.origin, NoFacade.resolution, NoFacade.size.
    rewrite !value_agree, Htp, Hps. reflexivity.
  - intros Fx1 Fy1 Fsx Fsy Fw Fh.
    apply Hin.
    + now apply finite_not_nan.
    + now apply finite_not_nan.
    + now apply corner_not_nan.
    + apply corner_not_nan; [assumption | now apply neg_finite | assumption].
Qed.


End ImageView.

(** *** The image view on concrete tags *)

Lemma origin_by_class_geo :
  (WithFacade.origin Scenario.geoA = Ok (Scenario.nums [10; 20; 0]) /\
   NoFacade.origin Scenario.geoB = Ok (Scenario.nums [10; 20; 0]))
  /\ (WithFacade.origin Scenario.bareA = Throw NoModelTiepoint /\
      NoFacade.origin Scenario.bareB = Ok JNull).
Proof.
  split.
  - apply (proj1 (origin_by_class Scenario.geoA Scenario.geoB eq_refl)
             (JNum (Num.of_Z 0)) (JNum (Num.of_Z 0)) (JNum (Num.of_Z 0))).
    reflexivity.
  - apply (proj2 (origin_by_class Scenario.bareA Scenario.bareB eq_refl)).
    left. reflexivity.
Defined.

(** C7 as stated fails: the class without the facade reference returns
    [null] for an image without ModelTiepoint; it does not fail. *)
Lemma origin_absent_is_null :
  NoFacade.tags Scenario.bareB !! tif.TiffTag.ModelTiepoint = None /\
  NoFacade.origin Scenario.bareB = Ok JNull /\
  NoFacade.origin Scenario.bareB <> Throw NoModelTiepoint.
Proof. split_and!; [reflexivity | reflexivity | discriminate]. Qed.

Lemma compression_by_code_samples :
  (WithFacade.compression (WithFacade.mkImage tt 0 8 (Scenario.withCompression 7))
     = Ok (JStr "image/jpeg") /\
   NoFacade.compression (NoFacade.mkImage (Scenario.withCompression 7) 0 8)
     = Ok (JStr "image/jpeg"))
  /\ (WithFacade.compression Scenario.bareA = Ok JNull /\
      NoFacade.compression Scenario.bareB = Ok JNull)
  /\ (WithFacade.compression (WithFacade.mkImage tt 0 8 (Scenario.withCompression 2))
        = Ok JUndefined /\
      NoFacade.compression (NoFacade.mkImage (Scenario.withCompression 2) 0 8)
        = Ok JUndefined).
Proof.
  split; [|split].
  - apply (proj1 (compression_by_code
                    (WithFacade.mkImage tt 0 8 (Scenario.withCompression 7))
                    (NoFacade.mkImage (Scenario.withCompression 7) 0 8) eq_refl) 7);
      reflexivity.
  - apply (proj1 (proj2 (compression_by_code Scenario.bareA Scenario.bareB eq_refl))).
    left. reflexivity.
  - apply (proj2 (proj2 (compression_by_code
                           (WithFacade.mkImage tt 0 8 (Scenario.withCompression 2))
                           (NoFacade.mkImage (Scenario.withCompression 2) 0 8) eq_refl))
             (Num.of_Z 2)); [reflexivity|].
    intros code [= <-]. reflexivity.
Defined.

(** C8 as stated fails: for the Compression code 2, which the table does
    not hold, the accessor returns [undefined], not [null]. *)
Lemma compression_unknown_is_undefined :
  NoFacade.value (NoFacade.mkImage (Scenario.withCompression 2) 0 8) tif.TiffTag.Compression
    = JNum (Num.of_Z 2) /\
  tif.compressionTable 2 = None /\
  NoFacade.compression (NoFacade.mkImage (Scenario.withCompression 2) 0 8) = Ok JUndefined /\
  NoFacade.compression (NoFacade.mkImage (Scenario.withCompression 2) 0 8) <> Ok JNull.
Proof. split_and!; [reflexivity | reflexivity | reflexivity | discriminate]. Qed.

Lemma bbox_corners_geo :
  WithFacade.bbox Scenario.geoA = Ok (Scenario.nums [10; -1180; 1210; 20])
  /\ NoFacade.bbox Scenario.geoB = Ok (Scenario.nums [10; -1180; 1210; 20])
  /\ boxContains (Scenario.nums [10; -1180; 1210; 20])
       (Num.of_Z 10) (Num.of_Z 20) = true
  /\ boxContains (Scenario.nums [10; -1180; 1210; 20])
       (Num.of_Z 1210) (Num.of_Z (-1180)) = true.
Proof.
  pose proof (bbox_corners Scenario.geoA Scenario.geoB eq_refl
                (JNum (Num.of_Z 0)) (JNum (Num.of_Z 0)) (JNum (Num.of_Z 0))
                (Num.of_Z 10) (Num.of_Z 20) (JNum (Num.of_Z 0))
                (Num.of_Z 2) (Num.of_Z 3) [JNum (Num.of_Z 0)]
                (Num.of_Z 600) (Num.of_Z 400)
                eq_refl eq_refl eq_refl eq_refl) as (Ha & Hb & _ & Hc).
  split; [exact Ha|]. split; [exact Hb|].
  exact (Hc eq_refl eq_refl eq_refl eq_refl eq_refl eq_refl).
Defined.

(** C9 as stated fails: with all four tags present and the pixel scale
    (NaN, 3, 0), [x2] is NaN, so are the x bounds of the box, and the box
    does not contain the origin (10, 20). *)
Lemma bbox_nan_scale :
  NoFacade.value Scenario.nanB tif.TiffTag.ModelTiepoint = Scenario.nums [0; 0; 0; 10; 20; 0] /\
  NoFacade.value Scenario.nanB tif.TiffTag.ModelPixelScale = Scenario.nanScale /\
  NoFacade.value Scenario.nanB tif.TiffTag.ImageWidth = JNum (Num.of_Z 600) /\
  NoFacade.value Scenario.nanB tif.TiffTag.ImageHeight = JNum (Num.of_Z 400) /\
  NoFacade.origin Scenario.nanB = Ok (Scenario.nums [10; 20; 0]) /\
  NoFacade.bbox Scenario.nanB
    = Ok (JArr [JNum Num.nan; JNum (Num.of_Z (-1180));
                JNum Num.nan; JNum (Num.of_Z 20)]) /\
  boxContains (JArr [JNum Num.nan; JNum (Num.of_Z (-1180));
                     JNum Num.nan; JNum (Num.of_Z 20)])
    (Num.of_Z 10) (Num.of_Z 20) = false.
Proof. split_and!; reflexivity. Qed.



(** * Further properties of the code *)

(** ** Whole numbers as JavaScript numbers *)

Section Exact.

Lemma iter_xO_Z p k : Z.pos (Pos.iter xO p k) = Z.pos p * 2 ^ Z.pos k.
Proof.
  induction k as [|k IH] using Pos.peano_ind.
  - simpl. lia.
  - rewrite Pos.iter_succ, Pos2Z.inj_xO, IH, Pos2Z.inj_succ, Z.pow_succ_r by lia. lia.
Qed.

Lemma iter_xO_digits p k :
  Z.pos (digits2_pos (Pos.iter xO p k)) = Z.pos (digits2_pos p) + Z.pos k.
Proof.
  induction k as [|k IH] using Pos.peano_ind.
  - simpl. lia.
  - rewrite Pos.iter_succ. simpl digits2_pos. rewrite Pos2Z.inj_succ, IH. lia.
Qed.

Lemma digits2_bound p :
  2 ^ (Z.pos (digits2_pos p) - 1) <= Z.pos p < 2 ^ Z.pos (digits2_pos p).
Proof.
  induction p as [p IH|p IH|]; simpl digits2_pos.
  - rewrite Pos2Z.inj_succ. change (Z.pos p~1) with (2 * Z.pos p + 1).
    replace (Z.succ (Z.pos (digits2_pos p)) - 1) with (Z.pos (digits2_pos p)) by lia.
    rewrite Z.pow_succ_r by lia.
    replace (2 ^ Z.pos (digits2_pos p))
      with (2 * 2 ^ (Z.pos (digits2_pos p) - 1)) in *
      by (rewrite <- Z.pow_succ_r by lia; f_equal; lia).
    revert IH. generalize (2 ^ (Z.pos (digits2_pos p) - 1)). intros X IH. lia.
  - rewrite Pos2Z.inj_succ. change (Z.pos p~0) with (2 * Z.pos p).
    replace (Z.succ (Z.pos (digits2_pos p)) - 1) with (Z.pos (digits2_pos p)) by lia.
    rewrite Z.pow_succ_r by lia.
    replace (2 ^ Z.pos (digits2_pos p))
      with (2 * 2 ^ (Z.pos (digits2_pos p) - 1)) in *
      by (rewrite <- Z.pow_succ_r by lia; f_equal; lia).
    revert IH. generalize (2 ^ (Z.pos (digits2_pos p) - 1)). intros X IH. lia.
  - simpl. lia.
Qed.

(** A 53-digit mantissa with an exponent in range is kept as it is. *)
Lemma round_aux_exact s m e :
  Z.pos (digits2_pos m) = 53 -> -1074 <= e <= 971 ->
  binary_round_aux Num.prec Num.emax s (Z.pos m) e loc_Exact = S754_finite s m e.
Proof.
  intros Hd He. unfold binary_round_aux.
  assert (Hs : shr_fexp Num.prec Num.emax (Z.pos m) e loc_Exact
               = ({| shr_m := Z.pos m; shr_r := false; shr_s := false |}, e)).
  { unfold shr_fexp, shr. simpl Zdigits2. rewrite Hd.
    unfold fexp, emin, Num.prec, Num.emax.
    replace (Z.max (53 + e - 53) (3 - 1024 - 53) - e) with 0 by lia.
    reflexivity. }
  rewrite Hs. simpl. rewrite Hs. simpl.
  unfold Num.emax, Num.prec.
  destruct (Z.leb_spec e (1024 - 53)); [reflexivity|lia].
Qed.

(** The number of a positive integer below 2^53: its mantissa is the
    integer shifted up to 53 binary digits. *)
Lemma of_Z_pos_exact p :
  Z.pos p < 2 ^ 53 ->
  exists m e, Num.of_Z (Z.pos p) = S754_finite false m e /\
              e = Z.pos (digits2_pos p) - 53 /\
              -52 <= e <= 0 /\ Z.pos m = Z.pos p * 2 ^ (- e).
Proof.
  intros Hp. pose proof (digits2_bound p) as Hb.
  assert (Hd : Z.pos (digits2_pos p) <= 53).
  { destruct (Z.le_gt_cases (Z.pos (digits2_pos p)) 53); [assumption|].
    assert (2 ^ 53 <= 2 ^ (Z.pos (digits2_pos p) - 1)) by (apply Z.pow_le_mono_r; lia).
    lia. }
  unfold Num.of_Z, binary_normalize, binary_round, shl_align.
  unfold fexp, emin, Num.prec, Num.emax.
  replace (Z.max (Z.pos (digits2_pos p) + 0 - 53) (3 - 1024 - 53))
    with (Z.pos (digits2_pos p) - 53) by lia.
  destruct (Z.pos (digits2_pos p) - 53 - 0) as [|k|k] eqn:Ek; try lia.
  - exists p, 0. split; [|split_and!; [lia|lia|lia|simpl; lia]].
    apply (round_aux_exact false p 0); lia.
  - exists (Pos.iter xO p k), (Z.pos (digits2_pos p) - 53).
    split; [|split_and!; [lia|lia|lia|]].
    + apply (round_aux_exact false); [|lia].
      rewrite iter_xO_digits. lia.
    + rewrite iter_xO_Z. f_equal. f_equal. lia.
Qed.

Lemma to_Z_finite s m e p :
  -52 <= e <= 0 -> Z.pos m = Z.pos p * 2 ^ (- e) ->
  Num.to_Z (S754_finite s m e) = Some (cond_Zopp s (Z.pos p)).
Proof.
  intros He Hm. unfold Num.to_Z.
  destruct (Z.leb_spec 0 e).
  - assert (e = 0) as -> by lia. simpl in Hm. f_equal. f_equal. lia.
  - assert (0 < 2 ^ (- e)) by (apply Z.pow_pos_nonneg; lia).
    rewrite Hm, Z.mod_mul, Z.div_mul by lia. reflexivity.
Qed.

(** Integers below 2^53 in magnitude are numbers, exactly. *)
Lemma to_Z_of_Z z : - 2 ^ 53 < z < 2 ^ 53 -> Num.to_Z (Num.of_Z z) = Some z.
Proof.
  intros Hz. destruct z as [|p|p].
  - reflexivity.
  - destruct (of_Z_pos_exact p ltac:(lia)) as (m & e & -> & _ & He & Hm).
    apply (to_Z_finite false m e p He Hm).
  - destruct (of_Z_pos_exact p ltac:(lia)) as (m & e & H & _ & He & Hm).
    unfold Num.of_Z, binary_normalize in *.
    assert (H' : binary_round Num.prec Num.emax true p 0 = S754_finite true m e).
    { revert H. unfold binary_round. destruct (shl_align _ _ _) as [mz ez].
      unfold binary_round_aux.
      destruct (shr_fexp _ _ _ _ _) as [mrs' e'].
      destruct (shr_fexp _ _ _ _ _) as [mrs'' e''].
      destruct (shr_m mrs''); try discriminate.
      destruct (e'' <=? _); try discriminate. intros [= -> ->]. reflexivity. }
    rewrite H'. apply (to_Z_finite true m e p He Hm).
Qed.

End Exact.

Section Order.

Lemma of_Z_pos_finite p :
  Z.pos p < 2 ^ 53 ->
  exists m e, Num.of_Z (Z.pos p) = S754_finite false m e.
Proof.
  intros Hp. destruct (of_Z_pos_exact p Hp) as (m & e & H & _). eauto.
Qed.

(** On the naturals below 2^53 the order of numbers is the order of
    integers. *)
Lemma ltb_of_Z a b :
  0 <= a < 2 ^ 53 -> 0 <= b < 2 ^ 53 ->
  Num.ltb (Num.of_Z a) (Num.of_Z b) = (a <? b).
Proof.
  intros Ha Hb. destruct a as [|p|p], b as [|q|q]; try lia.
  - reflexivity.
  - destruct (of_Z_pos_finite q ltac:(lia)) as (m & e & ->). reflexivity.
  - destruct (of_Z_pos_finite p ltac:(lia)) as (m & e & ->). reflexivity.
  - destruct (of_Z_pos_exact p ltac:(lia)) as (m1 & e1 & -> & He1 & Hr1 & Hm1).
    destruct (of_Z_pos_exact q ltac:(lia)) as (m2 & e2 & -> & He2 & Hr2 & Hm2).
    pose proof (digits2_bound p) as Hp. pose proof (digits2_bound q) as Hq.
    unfold Num.ltb, SFltb, SFcompare.
    destruct (Z.compare_spec e1 e2) as [Heq|Hlt|Hgt].
    + assert (Hc : 0 < 2 ^ (- e1)) by (apply Z.pow_pos_nonneg; lia).
      rewrite <- Heq in Hm2.
      change (PosDef.Pos.compare_cont Eq m1 m2) with (Pos.compare m1 m2).
      rewrite Pos2Z.inj_compare, Hm1, Hm2.
      destruct (Z.ltb_spec (Z.pos p) (Z.pos q)) as [H|H].
      * assert (Hl : Z.pos p * 2 ^ (- e1) < Z.pos q * 2 ^ (- e1)) by nia.
        apply Z.compare_lt_iff in Hl. now rewrite Hl.
      * assert (Hl : Z.pos q * 2 ^ (- e1) <= Z.pos p * 2 ^ (- e1)) by nia.
        apply Z.compare_ge_iff in Hl.
        destruct (Z.pos p * 2 ^ (- e1) ?= Z.pos q * 2 ^ (- e1)); congruence.
    + assert (2 ^ Z.pos (digits2_pos p) <= 2 ^ (Z.pos (digits2_pos q) - 1))
        by (apply Z.pow_le_mono_r; lia).
      destruct (Z.ltb_spec (Z.pos p) (Z.pos q)); [reflexivity|lia].
    + assert (2 ^ Z.pos (digits2_pos q) <= 2 ^ (Z.pos (digits2_pos p) - 1))
        by (apply Z.pow_le_mono_r; lia).
      destruct (Z.ltb_spec (Z.pos p) (Z.pos q)); [lia|reflexivity].
Qed.

(** [0 * n + k] is [k] for a finite [n]: the index of a tile of the first
    row. *)
Lemma first_row_index n k :
  Num.is_finite n = true -> 0 <= k < 2 ^ 53 ->
  Num.add (Num.mul (Num.of_Z 0) n) (Num.of_Z k) = Num.of_Z k.
Proof.
  intros Hn Hk. destruct k as [|p|p]; try lia.
  - destruct n as [[|]| | |[|] m e]; try discriminate; reflexivity.
  - destruct (of_Z_pos_finite p ltac:(lia)) as (m' & e' & ->).
    destruct n as [[|]| | |[|] m e]; try discriminate; reflexivity.
Qed.

End Order.

(** ** The header and the IFD chain *)

Lemma onSource_Ok {A} (m : M CogSource A) l a l' :
  Layer.onSource m l = Ok (a, l') ->
  exists s', m (source l) = Ok (a, s') /\
             l' = mkLayer s' (version l) (isLittleEndian l) (isBigTiff l) (images l).
Proof.
  unfold Layer.onSource. intros H.
  apply obind_Ok in H as ([a' s'] & Hm & [= <- <-]). eauto.
Qed.

(** What [processIfd] pushes is the chain from [offset]. *)
Lemma processIfd_chain fuel : forall offset l u l',
  Layer.processIfd fuel offset l = Ok (u, l') ->
  exists imgs,
    Chain offset (source l) imgs (source l') /\
    l' = advanced l (source l') imgs /\
    (length imgs <= fuel)%nat.
Proof.
  induction fuel as [|fuel IH]; intros offset l u l' H; [discriminate|].
  simpl in H. inv_bind H as ifd l1 Hifd. destruct ifd as [nextOffset image].
  apply onSource_Ok in Hifd as (s1 & Hread & ->).
  inv_bind H as u1 l2 Hpush. injection Hpush as _ <-.
  destruct (Z.eqb_spec nextOffset 0) as [->|Hne]; cbn [negb] in H.
  - apply ret_Ok in H as [_ <-]. exists [image]. cbn [source].
    split_and!; [now apply chain_last | reflexivity | simpl; lia].
  - apply IH in H as (rest & Hchain & -> & Hlen). cbn [source] in *.
    exists (image :: rest). split_and!.
    + eapply chain_next; eassumption.
    + unfold advanced. cbn. now rewrite <- app_assoc.
    + simpl. lia.
Qed.


Lemma hasBytes_at offset s :
  0 < chunkSize s ->
  Source.hasBytes offset None s = Ok (Source.isReady s (offset / chunkSize s), s).
Proof.
  intros Hcs. unfold Source.hasBytes, Source.covered. simpl.
  replace (offset + 1 - 1) with offset by lia.
  replace (offset / chunkSize s - offset / chunkSize s + 1) with 1 by lia.
  unfold seqZ. simpl. now rewrite andb_true_r.
Qed.


Lemma fetchHeader_endian fuel l endian s1 :
  Source.uint16 0 (source l) = Ok (endian, s1) ->
  endian <> Layer.ENDIAN_LITTLE ->
  Layer.fetchHeader fuel l = Throw OnlyLittleEndian.
Proof.
  intros He Hne. unfold Layer.fetchHeader, bind, Layer.onSource. rewrite He. cbn.
  destruct (Z.eqb_spec endian Layer.ENDIAN_LITTLE); [contradiction|reflexivity].
Qed.

Lemma fetchHeader_version fuel l s1 v s2 :
  Source.uint16 0 (source l) = Ok (Layer.ENDIAN_LITTLE, s1) ->
  Source.uint16 2 s1 = Ok (v, s2) ->
  v <> Layer.VERSION_TIFF ->
  Layer.fetchHeader fuel l = Throw (OnlyTiffSupported v).
Proof.
  intros He Hv Hne. unfold Layer.fetchHeader, bind, Layer.onSource.
  rewrite He. cbn. rewrite Hv. cbn.
  destruct (v =? Layer.VERSION_BIGTIFF); [reflexivity|].
  destruct (Z.eqb_spec v Layer.VERSION_TIFF); [contradiction|reflexivity].
Qed.

Lemma fetchHeader_offset fuel l s1 s2 offset s3 :
  Source.uint16 0 (source l) = Ok (Layer.ENDIAN_LITTLE, s1) ->
  Source.uint16 2 s1 = Ok (Layer.VERSION_TIFF, s2) ->
  Source.uint32 4 s2 = Ok (offset, s3) ->
  Source.hasBytes offset None s3 = Ok (false, s3) ->
  Layer.fetchHeader fuel l = Throw OffsetOutOfRangeHeader.
Proof.
  intros He Hv Ho Hr. unfold Layer.fetchHeader, bind, Layer.onSource.
  rewrite He. cbn -[Source.hasBytes].
  rewrite Hv. cbn -[Source.hasBytes]. rewrite Ho. cbn -[Source.hasBytes].
  rewrite Hr. reflexivity.
Qed.

(** X2: the three guards of [fetchHeader]. A file whose first two bytes do
    not read 0x4949 fails with 'Only little endian is supported' (the
    big-endian mark 0x4D4D included); a little-endian file whose version
    is not 42 fails with 'Only tiff supported version:' and the version
    (BigTIFF, 43, included); a first IFD whose chunk is not ready when the
    header has been read fails with 'Offset out of range'. *)
Theorem init_header_guards fuel l :
  (forall endian s1,
      Source.uint16 0 (source l) = Ok (endian, s1) ->
      endian <> Layer.ENDIAN_LITTLE ->
      Layer.init fuel l = Throw OnlyLittleEndian) /\
  (forall s1 v s2,
      Source.uint16 0 (source l) = Ok (Layer.ENDIAN_LITTLE, s1) ->
      Source.uint16 2 s1 = Ok (v, s2) ->
      v <> Layer.VERSION_TIFF ->
      Layer.init fuel l = Throw (OnlyTiffSupported v)) /\
  (forall s1 s2 offset s3,
      Source.uint16 0 (source l) = Ok (Layer.ENDIAN_LITTLE, s1) ->
      Source.uint16 2 s1 = Ok (Layer.VERSION_TIFF, s2) ->
      Source.uint32 4 s2 = Ok (offset, s3) ->
      Source.hasBytes offset None s3 = Ok (false, s3) ->
      Layer.init fuel l = Throw OffsetOutOfRangeHeader).
Proof.
  unfold Layer.init. split_and!.
  - apply fetchHeader_endian.
  - apply fetchHeader_version.
  - apply fetchHeader_offset.
Qed.

(** X3: [processIfd] does not detect a chain that loops. When the IFD at
    [offset] names itself as the next IFD, and reading it leaves the source
    as it was (its chunks are ready), no amount of fuel lets [processIfd]
    return: the recursion of the source has no end. *)
Theorem processIfd_loops_on_cycle offset s image fuel l :
  offset <> 0 ->
  Layer.readIfd offset s = Ok ((offset, image), s) ->
  source l = s ->
  Layer.processIfd fuel offset l = OutOfFuel.
Proof.
  intros Hne Hread. revert l.
  induction fuel as [|fuel IH]; intros l Hs; [reflexivity|].
  simpl. unfold bind, Layer.onSource. rewrite Hs, Hread. cbn.
  destruct (Z.eqb_spec offset 0); [contradiction|]. cbn.
  apply IH. reflexivity.
Qed.

(** ** The loop of [readIfd] *)

Lemma readEntries_fails byteStart j s e :
  entryOf byteStart j s = Throw e ->
  forall n, (j < n)%nat ->
  Layer.readEntries byteStart 0 n ∅ s = Throw e.
Proof.
  intros Hj n Hn. induction n as [|n IH]; [lia|].
  rewrite readEntries_snoc. simpl.
  destruct (decide (j = n)) as [->|Hne].
  - unfold entryOf in Hj.
    destruct (Layer.readEntries byteStart 0 n ∅ s) as [[img sn]| | |];
      simpl in *; try discriminate; [|congruence].
    destruct (Layer.readEntry _ sn) as [[e' s']| | |]; try discriminate.
    simpl in *. congruence.
  - rewrite IH by lia. reflexivity.
Qed.

Lemma assign_size e (image : Image) :
  (size (Layer.assign e image) <= S (size image))%nat.
Proof.
  destruct e as [[name v]|]; simpl; [|lia].
  destruct (image !! name) eqn:E.
  - rewrite map_size_insert_Some by eauto. lia.
  - rewrite map_size_insert_None by assumption. lia.
Qed.

Lemma readEntries_size byteStart n : forall s image s',
  Layer.readEntries byteStart 0 n ∅ s = Ok (image, s') ->
  (size image <= n)%nat.
Proof.
  induction n as [|n IH]; intros s image s' H.
  - apply ret_Ok in H as [<- _]. rewrite map_size_empty. lia.
  - apply readEntries_step in H as (img & sn & e & Hn & _ & ->).
    pose proof (IH _ _ _ Hn). pose proof (assign_size e img). lia.
Qed.

(** X4: what [readIfd] returns as the image has at most as many properties
    as the IFD has entries, and each property carries the name the tag
    table gives to the code of an entry of the IFD: entries with a code
    outside the table leave no trace. *)
Theorem readIfd_image_keys offset s nextOffset image s' :
  Layer.readIfd offset s = Ok ((nextOffset, image), s') ->
  exists tagCount s0,
    Source.uint16 offset s = Ok (tagCount, s0) /\
    (size image <= Z.to_nat tagCount)%nat /\
    forall name v, image !! name = Some v ->
      exists (j : nat) imagej sj tagCode sj',
        (j < Z.to_nat tagCount)%nat /\
        Layer.readEntries (offset + 2) 0 j ∅ s0 = Ok (imagej, sj) /\
        Source.uint16 (offset + 2 + 12 * Z.of_nat j) sj = Ok (tagCode, sj') /\
        tif.TIFF_TAG tagCode = Some name.
Proof.
  unfold Layer.readIfd. intros H.
  inv_bind H as tagCount s0 Hcount.
  inv_bind H as img sn Hloop.
  inv_bind H as next s1 Hnext. apply ret_Ok in H as [[= <- <-] <-].
  exists tagCount, s0. split_and!; [assumption| |].
  - eapply readEntries_size, Hloop.
  - intros name v Hv.
    destruct (readEntries_stored _ _ _ _ _ Hloop _ _ Hv)
      as (j & imagej & sj & sj' & Hj & Hpre & Hentry).
    apply readEntry_decided in Hentry
      as (tagType & count & typeSize & valueOffset & resident & Hread & _).
    destruct Hread as (tagCode & s1' & _ & _ & Hcode & Htag & _).
    exists j, imagej, sj, tagCode, s1'. split_and!; assumption.
Qed.

(** X5: an entry with a code of the tag table and a type code outside the
    size table is not skipped: [typeSize.length] fails on [undefined], and
    with it [readIfd]; no image is returned for the IFD. *)
Theorem readIfd_unknown_type offset s tagCount s0 (j : nat) imagej sj
    tagCode s1 tiffTag tagType s2 count s3 :
  Source.uint16 offset s = Ok (tagCount, s0) ->
  (j < Z.to_nat tagCount)%nat ->
  Layer.readEntries (offset + 2) 0 j ∅ s0 = Ok (imagej, sj) ->
  Source.uint16 (offset + 2 + 12 * Z.of_nat j) sj = Ok (tagCode, s1) ->
  tif.TIFF_TAG tagCode = Some tiffTag ->
  Source.uint16 (offset + 2 + 12 * Z.of_nat j + 2) s1 = Ok (tagType, s2) ->
  Source.uint32 (offset + 2 + 12 * Z.of_nat j + 4) s2 = Ok (count, s3) ->
  tif.TIFF_SIZE tagType = None ->
  Layer.readIfd offset s = Throw TypeError.
Proof.
  intros Hcount Hj Hpre Hcode Htag Htype Hcnt Hsize.
  unfold Layer.readIfd, bind at 1. rewrite Hcount. cbn [obind].
  unfold bind at 1.
  rewrite (readEntries_fails (offset + 2) j s0 TypeError); [reflexivity| |exact Hj].
  unfold entryOf. rewrite Hpre. cbn [obind].
  unfold Layer.readEntry, bind at 1. rewrite Hcode. cbn [obind]. rewrite Htag.
  unfold bind at 1. rewrite Htype. cbn [obind].
  unfold bind at 1. rewrite Hcnt. cbn [obind]. rewrite Hsize. reflexivity.
Qed.

(** ** Which chunks a read makes ready *)

Lemma fetchChunk_ready_inv s id id' :
  Source.isReady (Source.fetchChunk s id) id' = true ->
  id' = id \/ Source.isReady s id' = true.
Proof.
  unfold Source.fetchChunk. destruct (Source.isReady s id) eqn:E; [auto|].
  unfold Source.isReady. simpl. rewrite !bool_decide_eq_true.
  destruct (decide (id = id')) as [<-|Hne]; [auto|].
  rewrite lookup_insert_ne by done. auto.
Qed.

Lemma fetchAll_readyBelow ids : forall s bound,
  readyBelow s bound -> (forall id, id ∈ ids -> 0 <= id < bound) ->
  readyBelow (foldl Source.fetchChunk s ids) bound.
Proof.
  induction ids as [|i ids IH]; intros s bound Hs Hids; simpl; [exact Hs|].
  apply IH.
  - intros id [->|H]%fetchChunk_ready_inv; [|auto].
    apply Hids. left.
  - intros id H. apply Hids. now right.
Qed.

Lemma getBytes_state offset len s bs s' :
  Source.getBytes offset len s = Ok (bs, s') ->
  s' = foldl Source.fetchChunk s (Source.covered s offset len).
Proof.
  unfold Source.getBytes, Source.covered.
  destruct (len <=? 0); [now intros [= _ <-]|].
  destruct (_ || _); [discriminate|].
  destruct (_ <? _); [discriminate|].
  destruct (mapM _ _); [|discriminate]. now intros [= _ <-].
Qed.

(** A read of a range below chunk [bound] makes no chunk from [bound] on
    ready. *)
Lemma getBytes_readyBelow offset len s bs s' bound :
  0 < chunkSize s -> 0 <= offset -> (offset + len - 1) / chunkSize s < bound ->
  readyBelow s bound ->
  Source.getBytes offset len s = Ok (bs, s') ->
  readyBelow s' bound.
Proof.
  intros Hcs Ho Hb Hs H. rewrite (getBytes_state _ _ _ _ _ H).
  apply fetchAll_readyBelow; [exact Hs|].
  unfold Source.covered. intros id Hid.
  destruct (len <=? 0); [inversion Hid|].
  apply elem_of_seqZ in Hid.
  assert (0 <= offset / chunkSize s) by (apply Z.div_pos; lia). lia.
Qed.

Lemma open_wf bytes cs : 0 < cs -> wf (Source.open bytes cs) /\ readyBelow (Source.open bytes cs) 0.
Proof.
  intros Hcs. split; [split; [exact Hcs|]|].
  - intros id bs. simpl. rewrite lookup_empty. discriminate.
  - intros id. unfold Source.isReady. simpl. rewrite bool_decide_eq_true.
    rewrite lookup_empty. intros [? ?]. discriminate.
Qed.

Lemma readyBelow_mono s a b : a <= b -> readyBelow s a -> readyBelow s b.
Proof. intros Hab H id Hid. specialize (H id Hid). lia. Qed.

(** A read of an unsigned integer inside the file: its value, and the
    chunks it leaves ready. *)
Lemma uint_reads offset len s bound :
  wf s -> 0 <= offset -> 0 < len -> offset + len <= Source.sourceLength s ->
  (offset + len - 1) / chunkSize s < bound -> readyBelow s bound ->
  exists s',
    (let! bs := Source.getBytes offset len in ret (Source.le_uint bs)) s
      = Ok (Source.le_uint (take (Z.to_nat len) (drop (Z.to_nat offset) (backing s))), s') /\
    wf s' /\ same_file s s' /\ readyBelow s' bound.
Proof.
  intros Hwf Ho Hl Hend Hb Hr.
  destruct (getBytes_reads s offset len Hwf Ho Hl Hend) as (s' & Hread & Hwf' & Hsame).
  exists s'. unfold bind. rewrite Hread. cbn. split_and!; auto.
  eapply getBytes_readyBelow; [apply Hwf|exact Ho|exact Hb|exact Hr|exact Hread].
Qed.

(** X6: on a source that has fetched nothing yet, [init] reads the eight
    bytes of the header and then requires the first IFD to start in a
    chunk that holds some of them: a little-endian file of version 42
    whose first IFD starts in a later chunk fails with 'Offset out of
    range', whatever lies at that offset. *)
Theorem init_first_ifd_past_header bytes cs fuel :
  0 < cs -> (8 <= length bytes)%nat ->
  Source.le_uint (take 2 bytes) = Layer.ENDIAN_LITTLE ->
  Source.le_uint (take 2 (drop 2 bytes)) = Layer.VERSION_TIFF ->
  7 / cs < Source.le_uint (take 4 (drop 4 bytes)) / cs ->
  Layer.init fuel (Layer.new (Source.open bytes cs)) = Throw OffsetOutOfRangeHeader.
Proof.
  intros Hcs Hlen He Hv Ho.
  destruct (open_wf bytes cs Hcs) as [Hwf0 Hr0].
  set (s0 := Source.open bytes cs) in *.
  assert (Hb : forall p, 0 <= p <= 7 -> p / cs < 7 / cs + 1).
  { intros p Hp. pose proof (Z.div_le_mono p 7 cs Hcs ltac:(lia)). lia. }
  assert (Hr0' : readyBelow s0 (7 / cs + 1)).
  { apply (readyBelow_mono s0 0); [|exact Hr0].
    pose proof (Z.div_pos 7 cs ltac:(lia) Hcs). lia. }
  assert (Hsl : Source.sourceLength s0 = Z.of_nat (length bytes)) by reflexivity.
  destruct (uint_reads 0 2 s0 (7 / cs + 1)) as (s1 & H1 & Hwf1 & [Hb1 Hc1] & Hr1);
    try assumption; try lia; [apply Hb; lia|].
  destruct (uint_reads 2 2 s1 (7 / cs + 1)) as (s2 & H2 & Hwf2 & [Hb2 Hc2] & Hr2);
    try assumption; try lia;
    [unfold Source.sourceLength; rewrite Hb1; simpl; lia
    |rewrite Hc1; apply Hb; lia|].
  destruct (uint_reads 4 4 s2 (7 / cs + 1)) as (s3 & H3 & Hwf3 & [Hb3 Hc3] & Hr3);
    try assumption; try lia;
    [unfold Source.sourceLength; rewrite Hb2, Hb1; simpl; lia
    |rewrite Hc2, Hc1; apply Hb; lia|].
  rewrite Hb1 in H2. rewrite Hb2, Hb1 in H3. simpl backing in *.
  change (drop (Z.to_nat 0) bytes) with bytes in H1.
  change (Z.to_nat 2) with 2%nat in *. change (Z.to_nat 4) with 4%nat in *.
  rewrite He in H1. rewrite Hv in H2.
  unfold Layer.init.
  apply (fetchHeader_offset fuel (Layer.new s0) s1 s2 _ s3 H1 H2 H3).
  rewrite hasBytes_at by apply Hwf3.
  destruct (Source.isReady s3 _) eqn:E; [|reflexivity].
  apply Hr3 in E. rewrite Hc3, Hc2, Hc1 in E. simpl chunkSize in E. lia.
Qed.

(** ** The tile locator *)

Lemma imageAt_of_Z imgs k :
  - 2 ^ 53 < k < 2 ^ 53 ->
  Layer.imageAt imgs (Num.of_Z k) = if 0 <=? k then imgs !! Z.to_nat k else None.
Proof. intros Hk. unfold Layer.imageAt. now rewrite to_Z_of_Z. Qed.

Lemma TIFF_COMPRESSION_no_throw v e : tif.TIFF_COMPRESSION v <> Throw e.
Proof.
  destruct v as [| |n| | |]; simpl; try discriminate.
  destruct (Num.to_Z n) as [code|]; [|discriminate].
  destruct (tif.compressionTable code); discriminate.
Qed.

Lemma ToNumber_no_throw v e : JS.ToNumber v <> Throw e.
Proof. destruct v; discriminate. Qed.

Lemma div_no_throw a b e : JS.div a b <> Throw e.
Proof.
  unfold JS.div. destruct a, b; simpl; discriminate.
Qed.

Lemma length_throw v e : JS.length v = Throw e -> e = TypeError.
Proof. destruct v; simpl; intros [=]; congruence. Qed.

Lemma index_throw v k e : JS.index v k = Throw e -> e = TypeError.
Proof.
  destruct v as [| |n|s|l|]; simpl; try (intros [=]; congruence);
    destruct (Num.to_Z k) as [i|]; try discriminate;
    destruct (0 <=? i); discriminate.
Qed.

Lemma asNatural_no_throw v e : Layer.asNatural v <> Throw e.
Proof.
  destruct v as [| |n| | |]; simpl; try discriminate.
  destruct (Num.to_Z n) as [k|]; [|discriminate].
  destruct (0 <=? k); discriminate.
Qed.

Lemma getBytes_throw offset len s e :
  Source.getBytes offset len s = Throw e ->
  e = OffsetOutOfRange offset \/ exists got, e = ShortRead offset len got.
Proof.
  unfold Source.getBytes. destruct (len <=? 0); [discriminate|].
  destruct (_ || _); [intros [= <-]; auto|].
  destruct (_ <? _); [intros [= <-]; eauto|].
  destruct (mapM _ _); [discriminate|]. intros [= <-]. eauto.
Qed.

(** Once the image is found, 'Missing z' is not among the failures. *)
Lemma tileRequest_MissingZ imgs x y z z' :
  Layer.tileRequest imgs x y z = Throw (MissingZ z') -> Layer.imageAt imgs z = None.
Proof.
  unfold Layer.tileRequest. destruct (Layer.imageAt imgs z) as [image|]; [|reflexivity].
  intros H. exfalso.
  destruct (tif.TIFF_COMPRESSION _) as [m|e| |] eqn:E1; cbn [obind] in H;
    try discriminate; [|now apply TIFF_COMPRESSION_no_throw in E1].
  destruct (JS.div _ _) as [q|e| |] eqn:E2; cbn [obind] in H;
    try discriminate; [|now apply div_no_throw in E2].
  destruct (JS.length _) as [len|e| |] eqn:E3; cbn [obind] in H;
    try discriminate; [|apply length_throw in E3; congruence].
  destruct (JS.ToNumber len) as [n|e| |] eqn:E4; cbn [obind] in H;
    try discriminate; [|now apply ToNumber_no_throw in E4].
  destruct (JS.gt _ n); [discriminate|].
  destruct (JS.index _ _) as [o|e| |] eqn:E5; cbn [obind] in H;
    try discriminate; [|apply index_throw in E5; congruence].
  destruct (JS.index (Layer.prop image "TileByteCounts") _) as [c|e| |] eqn:E6;
    cbn [obind] in H;
    try discriminate. apply index_throw in E6; congruence.
Qed.

Lemma getTileRaw_MissingZ x y z l z' :
  Layer.getTileRaw x y z l = Throw (MissingZ z') ->
  Layer.imageAt (images l) z = None.
Proof.
  unfold Layer.getTileRaw, bind, get, pure_of, Layer.onSource. cbn [obind].
  destruct (Layer.tileRequest (images l) x y z) as [[[mime off] cnt]|e| |] eqn:E;
    cbn [obind]; try discriminate;
    [|intros [= ->]; eapply tileRequest_MissingZ, E].
  destruct (Layer.asNatural off) as [o|e| |] eqn:Eo; cbn [obind];
    try discriminate; [|now apply asNatural_no_throw in Eo].
  destruct (Layer.asNatural cnt) as [c|e| |] eqn:Ec; cbn [obind];
    try discriminate; [|now apply asNatural_no_throw in Ec].
  destruct (Source.getBytes o c (source l)) as [[bs s']|e| |] eqn:Eb; cbn [obind];
    try discriminate.
  intros [= ->]. apply getBytes_throw in Eb as [?|[? ?]]; discriminate.
Qed.

(** X7: [getTileRaw] fails with `Missing z: ${z}` exactly for the levels
    that index no image: for an integer [z] (below 2^53 in magnitude),
    exactly when [z < 0] or [z >= images.length]. *)
Theorem getTileRaw_missing_z_iff x y k l :
  - 2 ^ 53 < k < 2 ^ 53 ->
  Layer.getTileRaw x y (Num.of_Z k) l = Throw (MissingZ (Num.of_Z k)) <->
  k < 0 \/ Z.of_nat (length (images l)) <= k.
Proof.
  intros Hk. split.
  - intros H%getTileRaw_MissingZ. rewrite imageAt_of_Z in H by assumption.
    destruct (Z.leb_spec 0 k); [|lia]. apply lookup_ge_None in H. lia.
  - intros H.
    assert (Hi : Layer.imageAt (images l) (Num.of_Z k) = None).
    { rewrite imageAt_of_Z by assumption.
      destruct (Z.leb_spec 0 k); [|reflexivity]. apply lookup_ge_None. lia. }
    unfold Layer.getTileRaw, bind, get, pure_of, Layer.tileRequest. cbn [obind].
    rewrite Hi. reflexivity.
Qed.

(** X8: an image without a TileOffsets tag (a stripped TIFF) makes
    [getTileRaw] fail on the read of [image.TileOffsets.length], with a
    TypeError and for every [x] and [y], not with 'does not exist'. *)
Theorem getTileRaw_untiled x y z l image mime q :
  Layer.imageAt (images l) z = Some image ->
  tif.TIFF_COMPRESSION (Layer.prop image "Compression") = Ok mime ->
  JS.div (Layer.prop image "ImageLength") (Layer.prop image "TileLength") = Ok q ->
  image !! "TileOffsets"%string = None ->
  Layer.getTileRaw x y z l = Throw TypeError.
Proof.
  intros Hi Hm Hq Ho.
  unfold Layer.getTileRaw, bind, get, pure_of, Layer.tileRequest. cbn [obind].
  rewrite Hi, Hm. cbn [obind]. rewrite Hq. cbn [obind].
  unfold Layer.prop at 1. rewrite Ho. reflexivity.
Qed.

(** X9: whatever index [getTileRaw] arrives at, when the offset and the
    byte count found there are natural numbers that lie in the file, the
    tile it returns holds exactly the bytes of the file from that offset,
    as many as the byte count, with the media type of the request; the
    parsed images are left as they are and the chunk table still agrees
    with the file. *)
Theorem getTileRaw_returns_file_range x y z l mime off cnt offset count :
  wf (source l) ->
  Layer.tileRequest (images l) x y z = Ok (mime, off, cnt) ->
  Layer.asNatural off = Ok offset -> Layer.asNatural cnt = Ok count ->
  0 < count -> offset + count <= Source.sourceLength (source l) ->
  exists l',
    Layer.getTileRaw x y z l
      = Ok (Layer.mkTile mime
              (take (Z.to_nat count) (drop (Z.to_nat offset) (backing (source l)))),
            l') /\
    Z.of_nat (length (take (Z.to_nat count)
                           (drop (Z.to_nat offset) (backing (source l))))) = count /\
    images l' = images l /\ wf (source l') /\ same_file (source l) (source l').
Proof.
  intros Hwf Hreq Hoff Hcnt Hc Hend.
  assert (Ho : 0 <= offset).
  { unfold Layer.asNatural in Hoff. destruct off; try discriminate.
    destruct (Num.to_Z n); try discriminate.
    destruct (Z.leb_spec 0 z0); [|discriminate]. injection Hoff as <-. lia. }
  destruct (getBytes_reads _ _ _ Hwf Ho Hc Hend) as (s' & Hread & Hwf' & Hsame).
  unfold Layer.getTileRaw, bind, get, pure_of, Layer.onSource. cbn [obind].
  rewrite Hreq. cbn [obind]. rewrite Hoff. cbn [obind]. rewrite Hcnt. cbn [obind].
  rewrite Hread. cbn [obind]. eexists. split; [reflexivity|].
  cbn [images source]. split_and!; auto.
  rewrite length_take, length_drop. unfold Source.sourceLength in Hend. lia.
Qed.

(** X10: in the first tile row the column is the index. For [y = 0] and an
    integer column [x >= 0], on an image whose tile-row count
    [ceil(ImageLength / TileLength)] is finite and whose TileOffsets is an
    array, the request fails with 'does not exist' when [x] exceeds the
    length of TileOffsets, and otherwise carries the element [x] of
    TileOffsets and of TileByteCounts; at [x = length] the offset is
    [undefined]. *)
Theorem tileRequest_first_row imgs k z image mime q offsets :
  Layer.imageAt imgs z = Some image ->
  tif.TIFF_COMPRESSION (Layer.prop image "Compression") = Ok mime ->
  JS.div (Layer.prop image "ImageLength") (Layer.prop image "TileLength") = Ok q ->
  Num.is_finite (Num.ceil q) = true ->
  image !! "TileOffsets"%string = Some (JArr offsets) ->
  0 <= k < 2 ^ 53 -> Z.of_nat (length offsets) < 2 ^ 53 ->
  Layer.tileRequest imgs (Num.of_Z k) (Num.of_Z 0) z =
    if Z.of_nat (length offsets) <? k
    then Throw (TileDoesNotExist (Num.of_Z k) (Num.of_Z 0) z)
    else
      let? byteCount := JS.index (Layer.prop image "TileByteCounts") (Num.of_Z k) in
      Ok (mime, default JUndefined (offsets !! Z.to_nat k), byteCount).
Proof.
  intros Hi Hm Hq Hfin Ho Hk Hlen.
  unfold Layer.tileRequest. rewrite Hi, Hm. cbn [obind]. rewrite Hq. cbn [obind].
  rewrite first_row_index by assumption.
  unfold Layer.prop at 1 2. rewrite Ho.
  cbn [default from_option id JS.length obind JS.ToNumber].
  unfold JS.gt. rewrite ltb_of_Z by lia.
  destruct (Z.of_nat (length offsets) <? k); [reflexivity|].
  cbn [JS.index]. rewrite to_Z_of_Z by lia.
  destruct (Z.leb_spec 0 k); [|lia]. reflexivity.
Qed.

(** ** The image view: missing tags *)

Lemma div_by_null_not_finite w :
  Num.is_finite (Num.ceil (Num.div w Num.zero)) = false.
Proof. destruct w as [[|]|[|]| |[|] m e]; reflexivity. Qed.

Lemma mul_not_finite x y :
  Num.is_finite x = false -> Num.is_finite (Num.mul x y) = false.
Proof.
  destruct x as [sx|sx| |sx mx ex]; try discriminate; intros _;
    destruct y as [sy|sy| |sy my ey]; reflexivity.
Qed.

(** X11: where [isTiled()] answers false, [tileCount] does not fail (for
    an image width that is a number or absent, and heights that divide as
    numbers): the division by the missing tile width gives a column count
    [nx] that is no finite number (Infinity or NaN), and so is [total]. *)
Theorem tileCount_not_tiled (this : NoFacade.CogTifImage) w qy :
  NoFacade.isTiled this = false ->
  JS.ToNumber (NoFacade.value this tif.TiffTag.ImageWidth) = Ok w ->
  JS.div (NoFacade.value this tif.TiffTag.ImageHeight)
         (NoFacade.value this tif.TiffTag.TileHeight) = Ok qy ->
  exists tc,
    NoFacade.tileCount this = Ok tc /\
    Num.is_finite (NoFacade.nx tc) = false /\
    Num.is_finite (NoFacade.total tc) = false.
Proof.
  intros Ht Hw Hq.
  assert (Hnull : NoFacade.value this tif.TiffTag.TileWidth = JNull).
  { unfold NoFacade.isTiled in Ht.
    destruct (NoFacade.value this tif.TiffTag.TileWidth); try discriminate.
    reflexivity. }
  unfold NoFacade.tileCount, NoFacade.size, NoFacade.tileInfo. cbn [width height].
  rewrite Hnull, Hq. unfold JS.div at 1. rewrite Hw. cbn [obind JS.ToNumber].
  eexists. split; [reflexivity|]. cbn [NoFacade.nx NoFacade.total].
  split; [apply div_by_null_not_finite|].
  apply mul_not_finite, div_by_null_not_finite.
Qed.

Section MissingTags.
Context {Facade : Type}.
Variable a : WithFacade.CogTifImage Facade.
Variable b : NoFacade.CogTifImage.
Hypothesis same_tags : WithFacade.tags a = NoFacade.tags b.

(** X12: [resolution] of both classes is
    [[scale[0], -scale[1], scale[2]]] of ModelPixelScale; when the tag is
    absent (or its value is [null]), the class with the facade reference
    throws 'Tiff image does not have a ModelPixelScale' and the class
    without it returns [null]. *)
Theorem resolution_by_class :
  (forall s0 s1 s2 rest,
      NoFacade.value b tif.TiffTag.ModelPixelScale = JArr (s0 :: JNum s1 :: s2 :: rest) ->
      WithFacade.resolution a = Ok (JArr [s0; JNum (Num.neg s1); s2]) /\
      NoFacade.resolution b = Ok (JArr [s0; JNum (Num.neg s1); s2]))
  /\ (JS.nullish (NoFacade.value b tif.TiffTag.ModelPixelScale) = true ->
      WithFacade.resolution a = Throw NoModelPixelScale /\
      NoFacade.resolution b = Ok JNull).
Proof.
  unfold WithFacade.resolution, NoFacade.resolution.
  rewrite (value_agree a b same_tags). split.
  - intros s0 s1 s2 rest ->. split; reflexivity.
  - intros ->. split; reflexivity.
Qed.

(** The two [origin] accessors: a value in both, or the error in one and
    [null] in the other. *)
Lemma origin_cases :
  (WithFacade.origin a = Throw NoModelTiepoint /\ NoFacade.origin b = Ok JNull) \/
  (exists o, WithFacade.origin a = Ok o /\ NoFacade.origin b = Ok o /\
             JS.nullish o = false).
Proof.
  unfold WithFacade.origin, NoFacade.origin. rewrite (value_agree a b same_tags).
  destruct (NoFacade.value b tif.TiffTag.ModelTiepoint) as [| |n|s|l|f1 f2 f3].
  - left. split; reflexivity.
  - left. split; reflexivity.
  - left. cbn [JS.nullish JS.length obind]. split; [reflexivity|].
    destruct (JS.truthy (JNum n)); reflexivity.
  - destruct s as [|c s]; [left; split; reflexivity|].
    cbn [JS.nullish JS.length obind JS.truthy String.eqb negb].
    destruct (strictEqNum _ 6); cbn [negb JS.slice];
      [right; eexists; split_and!; reflexivity|left; split; reflexivity].
  - cbn [JS.nullish JS.length obind JS.truthy].
    destruct (strictEqNum _ 6); cbn [negb JS.slice];
      [right; eexists; split_and!; reflexivity|left; split; reflexivity].
  - left. split; reflexivity.
Qed.

Lemma index_defined o k :
  JS.nullish o = false -> exists v, JS.index o k = Ok v.
Proof.
  destruct o as [| |n|s|l|f1 f2 f3]; try discriminate; intros _; simpl; eauto;
    destruct (Num.to_Z k) as [i|]; eauto; destruct (0 <=? i); eauto.
Qed.

(** The two [resolution] accessors: the error in one and [null] in the
    other, or the same in both: an array, unless a conversion is left
    out. *)
Lemma resolution_cases :
  (WithFacade.resolution a = Throw NoModelPixelScale /\
   NoFacade.resolution b = Ok JNull) \/
  (WithFacade.resolution a = NoFacade.resolution b /\
   (NoFacade.resolution b = Uncovered \/
    exists r, NoFacade.resolution b = Ok r /\ JS.nullish r = false)).
Proof.
  unfold WithFacade.resolution, NoFacade.resolution.
  rewrite (value_agree a b same_tags).
  destruct (JS.nullish (NoFacade.value b tif.TiffTag.ModelPixelScale)) eqn:Hn;
    [left; split; reflexivity|].
  right. split; [reflexivity|].
  destruct (index_defined _ (Num.of_Z 0) Hn) as (r0 & ->).
  destruct (index_defined _ (Num.of_Z 1) Hn) as (s1 & ->).
  destruct (index_defined _ (Num.of_Z 2) Hn) as (r2 & ->).
  cbn [obind]. destruct s1; cbn; eauto.
Qed.

Lemma bind_not_null {A} (o : Outcome A) (f : A -> Outcome JsVal) :
  (forall e, o = Throw e -> e = TypeError) ->
  (forall x, f x <> Ok JNull /\ forall e, f x = Throw e -> e = TypeError) ->
  obind o f <> Ok JNull /\ forall e, obind o f = Throw e -> e = TypeError.
Proof.
  intros Ho Hf. destruct o as [x|e| |]; cbn [obind].
  - apply Hf.
  - split; [discriminate|]. intros e' [= <-]. now apply Ho.
  - split; discriminate.
  - split; discriminate.
Qed.

Lemma arith_throw x y e :
  (JS.mul x y = Throw e -> e = TypeError) /\
  (JS.add x y = Throw e -> e = TypeError) /\
  (JS.Math_min x y = Throw e -> e = TypeError) /\
  (JS.Math_max x y = Throw e -> e = TypeError).
Proof. destruct x, y; split_and!; discriminate. Qed.

(** X13: on the same tags the two [bbox] accessors differ only in how a
    missing tag shows. Where the class without the facade reference
    returns [null], the class with it throws, for the tie point or for
    the pixel scale; everywhere else both return the same; and the class
    with the reference never returns [null]: its [return null] is dead.
    (Stated for pixel scales whose second element converts to a number
    without a conversion the development leaves out.) *)
Theorem bbox_null_against_throw :
  NoFacade.resolution b <> Uncovered ->
  (NoFacade.bbox b = Ok JNull <->
   WithFacade.bbox a = Throw NoModelTiepoint \/
   WithFacade.bbox a = Throw NoModelPixelScale)
  /\ (NoFacade.bbox b <> Ok JNull -> WithFacade.bbox a = NoFacade.bbox b)
  /\ WithFacade.bbox a <> Ok JNull.
Proof.
  intros Hcov. unfold WithFacade.bbox, NoFacade.bbox.
  destruct origin_cases as [[HoA HoB]|(o & HoA & HoB & Hno)]; rewrite HoA, HoB;
    cbn [obind].
  - destruct resolution_cases as [[_ HrB]|[_ [HrB|(r & HrB & _)]]];
      [|contradiction|]; rewrite HrB; cbn [obind JS.nullish orb];
      (split_and!; [split; auto|congruence|discriminate]).
  - destruct resolution_cases as [[HrA HrB]|[HrA [HrB|(r & HrB & Hnr)]]];
      [|contradiction|].
    + rewrite HrA, HrB. cbn [obind JS.nullish]. rewrite orb_true_r.
      split_and!; [split; auto|congruence|discriminate].
    + rewrite HrA, HrB. cbn [obind]. rewrite Hno, Hnr. cbn [orb].
      unfold WithFacade.size, NoFacade.size. rewrite !(value_agree a b same_tags).
      cbn [width height].
      match goal with
      | |- (?body = _ <-> _) /\ _ => set (box := body)
      end.
      assert (Hbox : box <> Ok JNull /\ forall e, box = Throw e -> e = TypeError).
      { unfold box.
        repeat (apply bind_not_null;
                [intros e; first [apply index_throw | apply arith_throw]|intros ?]).
        split; discriminate. }
      destruct Hbox as [Hnn Hthrow].
      split_and!; [split|reflexivity|exact Hnn].
      * intros H. contradiction.
      * intros [H|H]; apply Hthrow in H; discriminate.
Qed.

End MissingTags.

(** ** The names of the tile files *)

Section TileNames.
Import ActionDumpTile.

Lemma occurs_app c s t : occurs c (s +:+ t) = occurs c s || occurs c t.
Proof.
  induction s as [|c' s IH]; simpl; [reflexivity|].
  now rewrite IH, orb_assoc.
Qed.

Lemma occurs_zeros c n :
  Ascii.eqb c "0" = false ->
  occurs c (string_of_list_ascii (replicate n "0"%char)) = false.
Proof. intros Hc. induction n as [|n IH]; simpl; [reflexivity|]. now rewrite Hc. Qed.

Lemma occurs_uint c d :
  c = "_"%char \/ c = "."%char ->
  occurs c (DecimalString.NilEmpty.string_of_uint d) = false.
Proof.
  intros [->| ->]; induction d; simpl; auto.
Qed.

(** Neither [_] nor [.] occurs in the digits of an integer. *)
Lemma occurs_decimal c z :
  c = "_"%char \/ c = "."%char -> occurs c (decimal z) = false.
Proof.
  intros Hc. unfold decimal, DecimalString.NilZero.string_of_int.
  assert (Hu : forall d, occurs c (DecimalString.NilZero.string_of_uint d) = false).
  { intros d. unfold DecimalString.NilZero.string_of_uint.
    destruct d; try apply (occurs_uint c _ Hc).
    destruct Hc as [->| ->]; reflexivity. }
  destruct (Z.to_int z) as [d|d]; [apply Hu|].
  simpl. rewrite Hu. destruct Hc as [->| ->]; reflexivity.
Qed.

Lemma occurs_padStart c s n :
  Ascii.eqb c "0" = false -> occurs c (padStart s n "0") = occurs c s.
Proof.
  intros Hc. unfold padStart. now rewrite occurs_app, occurs_zeros.
Qed.

(** A string is cut in one way only at the first occurrence of [c]. *)
Lemma cut_unique c : forall s1 s2 t1 t2,
  occurs c s1 = false -> occurs c s2 = false ->
  s1 +:+ String c t1 = s2 +:+ String c t2 -> s1 = s2 /\ t1 = t2.
Proof.
  induction s1 as [|a s1 IH]; intros [|b s2] t1 t2 H1 H2 H; simpl in *.
  - injection H as <-. auto.
  - injection H as <- _. rewrite Ascii.eqb_refl in H2. discriminate.
  - injection H as -> _. rewrite Ascii.eqb_refl in H1. discriminate.
  - injection H as <- H.
    apply orb_false_elim in H1 as [_ H1]. apply orb_false_elim in H2 as [_ H2].
    destruct (IH _ _ _ H1 H2 H) as [-> ->]. auto.
Qed.

Lemma to_int_nonnil z :
  Z.to_int z <> Decimal.Pos Decimal.Nil /\ Z.to_int z <> Decimal.Neg Decimal.Nil.
Proof.
  destruct z as [|p|p]; simpl; split; try discriminate;
    intros [= H]; now apply DecimalPos.Unsigned.to_uint_nonnil in H.
Qed.

Lemma decimal_inj z z' : decimal z = decimal z' -> z = z'.
Proof.
  unfold decimal. intros H. apply DecimalZ.to_int_inj.
  destruct (to_int_nonnil z) as [Hp Hn]. destruct (to_int_nonnil z') as [Hp' Hn'].
  pose proof (DecimalString.NilZero.isi _ Hp Hn) as H1.
  pose proof (DecimalString.NilZero.isi _ Hp' Hn') as H2.
  rewrite H in H1. congruence.
Qed.

Lemma uint_nonempty d :
  d <> Decimal.Nil -> DecimalString.NilEmpty.string_of_uint d <> EmptyString.
Proof. destruct d; simpl; congruence. Qed.

Lemma decimal_nonempty z : decimal z <> EmptyString.
Proof.
  unfold decimal, DecimalString.NilZero.string_of_int,
    DecimalString.NilZero.string_of_uint.
  destruct z as [|p|p]; simpl; try discriminate.
  destruct (Pos.to_uint p); discriminate.
Qed.

(** The digits of a positive number do not start with 0. *)
Lemma to_uint_no_leading_zero p d : Pos.to_uint p <> Decimal.D0 d.
Proof.
  intros H.
  pose proof (DecimalZ.to_of (Z.to_int (Z.pos p))) as Hn.
  rewrite DecimalZ.of_to in Hn. simpl in Hn. rewrite H in Hn.
  injection Hn as Hn. unfold Decimal.unorm in Hn.
  rewrite DecimalFacts.nzhead_D0 in Hn.
  destruct (Decimal.nzhead d) eqn:E; try discriminate.
  - injection Hn as Hd. subst d.
    now apply (DecimalPos.Unsigned.to_uint_nonzero p).
  - rewrite <- E in Hn. symmetry in Hn.
    now apply DecimalFacts.nzhead_nonzero in Hn.
Qed.

(** Only the digits of 0 start with 0. *)
Lemma decimal_leading_zero z t : decimal z = String "0" t -> t = EmptyString.
Proof.
  unfold decimal, DecimalString.NilZero.string_of_int,
    DecimalString.NilZero.string_of_uint.
  destruct z as [|p|p]; simpl.
  - now intros [= <-].
  - pose proof (to_uint_no_leading_zero p) as Hz.
    destruct (Pos.to_uint p) eqn:E; simpl; try discriminate.
    + intros [= <-]. reflexivity.
    + intros _. exfalso. eapply Hz. reflexivity.
  - discriminate.
Qed.

Lemma zeros_cancel n : forall m s s',
  string_of_list_ascii (replicate n "0"%char) +:+ s
    = string_of_list_ascii (replicate (n + m) "0"%char) +:+ s' ->
  s = string_of_list_ascii (replicate m "0"%char) +:+ s'.
Proof.
  induction n as [|n IH]; intros m s s' H; simpl in *; [exact H|].
  injection H as H. now apply IH.
Qed.

Lemma padStart_decimal_le z z' n :
  (String.length (decimal z') <= String.length (decimal z))%nat ->
  padStart (decimal z) n "0" = padStart (decimal z') n "0" -> z = z'.
Proof.
  unfold padStart. intros Hlen H.
  set (k := (n - String.length (decimal z))%nat) in *.
  set (k' := (n - String.length (decimal z'))%nat) in *.
  assert (Hk : (k' = k + (k' - k))%nat) by lia.
  rewrite Hk in H. apply zeros_cancel in H.
  destruct (k' - k)%nat as [|m] eqn:Em.
  - simpl in H. now apply decimal_inj.
  - simpl in H. pose proof (decimal_leading_zero _ _ H) as Ht.
    destruct m; simpl in Ht; [|discriminate].
    now apply decimal_nonempty in Ht.
Qed.

(** Padding keeps the digits of different integers apart. *)
Lemma padStart_decimal_inj z z' n :
  padStart (decimal z) n "0" = padStart (decimal z') n "0" -> z = z'.
Proof.
  intros H.
  destruct (Nat.le_ge_cases (String.length (decimal z')) (String.length (decimal z))).
  - now apply (padStart_decimal_le z z' n).
  - symmetry. now apply (padStart_decimal_le z' z n).
Qed.

(** The digits a whole number prints as. *)
Lemma NumberToString_integer n z s :
  Num.to_Z n = Some z -> NumberToString n = Some s -> s = decimal z.
Proof.
  intros Hz. unfold NumberToString.
  destruct n as [sg|sg| |sg m e]; try discriminate; rewrite Hz;
    destruct (Z.abs z <? 2 ^ 53); congruence.
Qed.

Lemma getTileName_FileName mimeType zoom x y name :
  getTileName mimeType zoom x y = FileName name ->
  exists xs ys zs key fileExt,
    NumberToString x = Some xs /\ NumberToString y = Some ys /\
    NumberToString zoom = Some zs /\
    propertyKey mimeType = Some key /\ FileExtension key = Some fileExt /\
    name = padStart xs 3 "0" +:+ "_" +:+ padStart ys 3 "0" +:+ "_z" +:+ zs
           +:+ "." +:+ fileExt.
Proof.
  unfold getTileName.
  destruct (NumberToString x) as [xs|] eqn:Ex; [|discriminate].
  destruct (NumberToString y) as [ys|] eqn:Ey; [|discriminate].
  destruct (propertyKey mimeType) as [key|] eqn:Ek; [|discriminate].
  destruct (FileExtension key) as [ext|] eqn:Ee;
    [|destruct (inherited key); discriminate].
  destruct (NumberToString zoom) as [zs|] eqn:Ez; [|discriminate].
  intros [= <-]. exists xs, ys, zs, key, ext. split_and!; auto.
Qed.

(** X14: no two tiles share a file name. When [getTileName] gives the same
    name for two tiles whose coordinates and zoom levels are whole numbers
    below 2^53 in magnitude, the tiles have the same [x], the same [y] and
    the same zoom (negative values and values of more than three digits
    included; -0 and 0 are the same whole number). *)
Theorem getTileName_injective mimeType zoom x y mimeType' zoom' x' y' name
    zi xi yi zi' xi' yi' :
  Num.to_Z zoom = Some zi -> Num.to_Z x = Some xi -> Num.to_Z y = Some yi ->
  Num.to_Z zoom' = Some zi' -> Num.to_Z x' = Some xi' -> Num.to_Z y' = Some yi' ->
  getTileName mimeType zoom x y = FileName name ->
  getTileName mimeType' zoom' x' y' = FileName name ->
  xi = xi' /\ yi = yi' /\ zi = zi'.
Proof.
  intros Hz Hx Hy Hz' Hx' Hy' H H'.
  apply getTileName_FileName in H
    as (xs & ys & zs & key & ext & Sx & Sy & Sz & _ & _ & ->).
  apply getTileName_FileName in H'
    as (xs' & ys' & zs' & key' & ext' & Sx' & Sy' & Sz' & _ & _ & E).
  rewrite (NumberToString_integer _ _ _ Hx Sx),
          (NumberToString_integer _ _ _ Hy Sy),
          (NumberToString_integer _ _ _ Hz Sz),
          (NumberToString_integer _ _ _ Hx' Sx'),
          (NumberToString_integer _ _ _ Hy' Sy'),
          (NumberToString_integer _ _ _ Hz' Sz') in E.
  assert (Hu : forall z n, occurs "_" (padStart (decimal z) n "0") = false).
  { intros z n. rewrite occurs_padStart by reflexivity. apply occurs_decimal. auto. }
  cbn [String.append] in E.
  apply cut_unique in E as [Ex E]; [|apply Hu|apply Hu].
  apply cut_unique in E as [Ey E]; [|apply Hu|apply Hu].
  injection E as E.
  apply cut_unique in E as [Ez _];
    [|apply occurs_decimal; auto|apply occurs_decimal; auto].
  apply padStart_decimal_inj in Ex. apply padStart_decimal_inj in Ey.
  apply decimal_inj in Ez. auto.
Qed.

(** X15: [getTileName] names a tile only for the media types JPEG, JP2 and
    WebP. For the media type [getTileRaw] finds for a Compression value,
    and for coordinates and a zoom that are whole numbers below 2^53 in
    magnitude, it gives [xxx_yyy_z<zoom>.<ext>] with [x] and [y] padded to
    three characters when the type is one of the three, and fails with
    'Unable to process tile type' for every other one: uncompressed, LZW
    and deflate tiles, and the [undefined] of an unknown code or a missing
    tag. *)
Theorem getTileName_by_compression key mimeType zoom x y xs ys zs :
  tif.TIFF_COMPRESSION key = Ok mimeType ->
  NumberToString x = Some xs -> NumberToString y = Some ys ->
  NumberToString zoom = Some zs ->
  let named ext :=
    FileName (padStart xs 3 "0" +:+ "_" +:+ padStart ys 3 "0" +:+ "_z" +:+ zs
              +:+ "." +:+ ext) in
  (mimeType = JStr MimeType.JPEG -> getTileName mimeType zoom x y = named "jpeg"%string)
  /\ (mimeType = JStr MimeType.JP2 -> getTileName mimeType zoom x y = named "jp2"%string)
  /\ (mimeType = JStr MimeType.WEBP -> getTileName mimeType zoom x y = named "webp"%string)
  /\ (mimeType <> JStr MimeType.JPEG -> mimeType <> JStr MimeType.JP2 ->
      mimeType <> JStr MimeType.WEBP ->
      getTileName mimeType zoom x y = UnableToProcess mimeType).
Proof.
  intros Hc Hx Hy Hz named. unfold getTileName. rewrite Hx, Hy, Hz.
  split_and!; try (intros ->; reflexivity).
  intros H1 H2 H3.
  assert (Hm : mimeType = JUndefined \/
               exists code mime, tif.compressionTable code = Some mime /\
                                 mimeType = JStr mime).
  { destruct key as [| |n| | |]; simpl in Hc; try discriminate; try (left; congruence).
    destruct (Num.to_Z n) as [code|]; [|left; congruence].
    destruct (tif.compressionTable code) as [mime|] eqn:E; [|left; congruence].
    right. exists code, mime. split; congruence. }
  destruct Hm as [->|(code & mime & Ht & ->)]; [reflexivity|].
  unfold tif.compressionTable in Ht.
  repeat match type of Ht with
         | (if ?c then _ else _) = _ =>
             destruct c; [injection Ht as <-; try reflexivity; contradiction|]
         end.
  discriminate.
Qed.

End TileNames.

(** ** The chunk table stays in agreement with the file *)

Section KeepsFile.

Lemma same_file_refl s : same_file s s.
Proof. split; reflexivity. Qed.

Lemma same_file_trans s1 s2 s3 : same_file s1 s2 -> same_file s2 s3 -> same_file s1 s3.
Proof. intros [? ?] [? ?]. split; congruence. Qed.

Lemma keeps_ret {A} (a : A) : keepsFile (ret a).
Proof. intros s a' s' Hwf [= _ <-]. split; [assumption|apply same_file_refl]. Qed.

Lemma keeps_throw {A} e : keepsFile (@throw CogSource A e).
Proof. intros s a s' _ H. discriminate. Qed.

Lemma keeps_bind {A B} (m : M CogSource A) (f : A -> M CogSource B) :
  keepsFile m -> (forall a, keepsFile (f a)) -> keepsFile (bind m f).
Proof.
  intros Hm Hf s b s' Hwf H. inv_bind H as a s1 Ha.
  destruct (Hm _ _ _ Hwf Ha) as [Hwf1 Hs1].
  destruct (Hf a _ _ _ Hwf1 H) as [Hwf' Hs'].
  split; [assumption|]. eapply same_file_trans; eassumption.
Qed.

Lemma keeps_getBytes offset len : keepsFile (Source.getBytes offset len).
Proof.
  intros s bs s' Hwf H. rewrite (getBytes_state _ _ _ _ _ H).
  destruct (fetchAll_wf (Source.covered s offset len) s Hwf) as (? & ? & _).
  split; assumption.
Qed.

Lemma keeps_hasBytes offset len : keepsFile (Source.hasBytes offset len).
Proof.
  intros s r s' Hwf H. rewrite (hasBytes_state _ _ _ _ _ H).
  split; [assumption|apply same_file_refl].
Qed.

Lemma keeps_uint16 offset : keepsFile (Source.uint16 offset).
Proof. apply keeps_bind; [apply keeps_getBytes|intros; apply keeps_ret]. Qed.

Lemma keeps_uint32 offset : keepsFile (Source.uint32 offset).
Proof. apply keeps_bind; [apply keeps_getBytes|intros; apply keeps_ret]. Qed.

Lemma keeps_readType offset tagType count :
  keepsFile (Source.readType offset tagType count).
Proof.
  unfold Source.readType. destruct (tif.tagTypeOf tagType); [|apply keeps_throw].
  apply keeps_bind; [apply keeps_getBytes|intros; apply keeps_ret].
Qed.

Lemma keeps_readEntry pos : keepsFile (Layer.readEntry pos).
Proof.
  unfold Layer.readEntry.
  apply keeps_bind; [apply keeps_uint16|intros tagCode].
  destruct (tif.TIFF_TAG tagCode); [|apply keeps_ret].
  apply keeps_bind; [apply keeps_uint16|intros tagType].
  apply keeps_bind; [apply keeps_uint32|intros count].
  destruct (tif.TIFF_SIZE tagType) as [typeSize|]; [|apply keeps_throw].
  destruct (count * typeSize <=? 4).
  - apply keeps_bind; [apply keeps_readType|intros; apply keeps_ret].
  - apply keeps_bind; [apply keeps_uint32|intros valueOffset].
    apply keeps_bind; [apply keeps_hasBytes|intros ready].
    destruct ready; cbn [negb]; [|apply keeps_ret].
    apply keeps_bind; [apply keeps_readType|intros; apply keeps_ret].
Qed.

Lemma keeps_readEntries byteStart n : forall i image,
  keepsFile (Layer.readEntries byteStart i n image).
Proof.
  induction n as [|n IH]; intros i image; simpl; [apply keeps_ret|].
  apply keeps_bind; [apply keeps_readEntry|intros e; apply IH].
Qed.

Lemma keeps_readIfd offset : keepsFile (Layer.readIfd offset).
Proof.
  unfold Layer.readIfd.
  apply keeps_bind; [apply keeps_uint16|intros tagCount].
  apply keeps_bind; [apply keeps_readEntries|intros image].
  apply keeps_bind; [apply keeps_uint32|intros; apply keeps_ret].
Qed.

Lemma chain_keeps offset s imgs s' :
  Chain offset s imgs s' -> wf s -> wf s' /\ same_file s s'.
Proof.
  induction 1 as [offset s image s' Hread|offset s next image s1 rest s' Hread _ _ IH];
    intros Hwf.
  - exact (keeps_readIfd _ _ _ _ Hwf Hread).
  - destruct (keeps_readIfd _ _ _ _ Hwf Hread) as [Hwf1 Hs1].
    destruct (IH Hwf1) as [Hwf' Hs']. split; [assumption|].
    eapply same_file_trans; eassumption.
Qed.

(** After [init] the chunk table agrees with the file it was opened on. *)
Lemma init_keeps fuel l u l' :
  wf (source l) -> Layer.init fuel l = Ok (u, l') ->
  wf (source l') /\ same_file (source l) (source l').
Proof.
  intros Hwf H. unfold Layer.init, Layer.fetchHeader in H.
  inv_bind H as endian l1 Hendian. apply onSource_Ok in Hendian as (s1 & He & ->).
  inv_bind H as u1 l2 Hle. injection Hle as _ <-.
  destruct (negb (endian =? Layer.ENDIAN_LITTLE)); [discriminate|].
  inv_bind H as v l3 Hversion. apply onSource_Ok in Hversion as (s2 & Hv & ->).
  cbn [source version isLittleEndian isBigTiff images] in *.
  inv_bind H as u2 l4 Hset. injection Hset as _ <-.
  destruct (v =? Layer.VERSION_BIGTIFF); [discriminate|].
  destruct (negb (v =? Layer.VERSION_TIFF)); [discriminate|].
  inv_bind H as offset l5 Hoffset. apply onSource_Ok in Hoffset as (s3 & Ho & ->).
  cbn [source version isLittleEndian isBigTiff images] in *.
  inv_bind H as ready l6 Hready. apply onSource_Ok in Hready as (s4 & Hr & ->).
  cbn [source version isLittleEndian isBigTiff images] in *.
  pose proof (hasBytes_state _ _ _ _ _ Hr) as ->.
  destruct (negb ready); [discriminate|].
  apply processIfd_chain in H as (imgs & Hchain & _ & _). cbn [source] in Hchain.
  destruct (keeps_uint16 _ _ _ _ Hwf He) as [Hwf1 Hs1].
  destruct (keeps_uint16 _ _ _ _ Hwf1 Hv) as [Hwf2 Hs2].
  destruct (keeps_uint32 _ _ _ _ Hwf2 Ho) as [Hwf3 Hs3].
  destruct (chain_keeps _ _ _ _ Hchain Hwf3) as [Hwf' Hs'].
  split; [assumption|].
  eauto using same_file_trans.
Qed.

End KeepsFile.

(** ** The properties on the sample files *)


Lemma init_header_guards_samples :
  Layer.init 4 (Layer.new (Source.open Sample.bigEndian Scenario.defaultChunk))
    = Throw OnlyLittleEndian /\
  Layer.init 4 (Layer.new (Source.open Sample.bigTiff Scenario.defaultChunk))
    = Throw (OnlyTiffSupported 43) /\
  Layer.init 4 (Layer.new (Source.open Sample.farIfd 32))
    = Throw OffsetOutOfRangeHeader.
Proof.
  split_and!.
  - apply (proj1 (init_header_guards 4
                    (Layer.new (Source.open Sample.bigEndian Scenario.defaultChunk)))
             Layer.ENDIAN_BIG (Sample.cached Sample.bigEndian Scenario.defaultChunk));
      [vm_compute; reflexivity|discriminate].
  - apply (proj1 (proj2 (init_header_guards 4
                    (Layer.new (Source.open Sample.bigTiff Scenario.defaultChunk))))
             (Sample.cached Sample.bigTiff Scenario.defaultChunk) 43
             (Sample.cached Sample.bigTiff Scenario.defaultChunk));
      [vm_compute; reflexivity|vm_compute; reflexivity|discriminate].
  - apply (proj2 (proj2 (init_header_guards 4
                    (Layer.new (Source.open Sample.farIfd 32))))
             (Sample.cached Sample.farIfd 32) (Sample.cached Sample.farIfd 32) 100
             (Sample.cached Sample.farIfd 32)); vm_compute; reflexivity.
Defined.

Lemma processIfd_loops_on_cycle_sample :
  Layer.readIfd 8 (Sample.cached Sample.cyclic Scenario.defaultChunk)
    = Ok ((8, ∅), Sample.cached Sample.cyclic Scenario.defaultChunk) /\
  Layer.processIfd 1000 8 (Layer.new (Sample.cached Sample.cyclic Scenario.defaultChunk))
    = OutOfFuel.
Proof.
  assert (E : Layer.readIfd 8 (Sample.cached Sample.cyclic Scenario.defaultChunk)
              = Ok ((8, ∅), Sample.cached Sample.cyclic Scenario.defaultChunk))
    by (vm_compute; reflexivity).
  split; [exact E|].
  apply (processIfd_loops_on_cycle 8 _ ∅ 1000 _ ltac:(lia) E). reflexivity.
Defined.

Lemma readIfd_image_keys_S6 :
  exists image s' s0,
    Layer.readIfd 8 (Source.open Scenario.S6 Scenario.defaultChunk)
      = Ok ((0, image), s') /\
    Source.uint16 8 (Source.open Scenario.S6 Scenario.defaultChunk) = Ok (7, s0) /\
    (size image <= Z.to_nat 7)%nat /\
    forall name v, image !! name = Some v ->
      exists (j : nat) imagej sj tagCode sj',
        (j < Z.to_nat 7)%nat /\
        Layer.readEntries (8 + 2) 0 j ∅ s0 = Ok (imagej, sj) /\
        Source.uint16 (8 + 2 + 12 * Z.of_nat j) sj = Ok (tagCode, sj') /\
        tif.TIFF_TAG tagCode = Some name.
Proof.
  assert (E : Layer.readIfd 8 (Source.open Scenario.S6 Scenario.defaultChunk)
              = Ok ((0, Sample.firstImage (Sample.layerOf Scenario.S6 Scenario.defaultChunk)),
                    Sample.cached Scenario.S6 Scenario.defaultChunk))
    by (vm_compute; reflexivity).
  assert (Hc : Source.uint16 8 (Source.open Scenario.S6 Scenario.defaultChunk)
               = Ok (7, Sample.cached Scenario.S6 Scenario.defaultChunk))
    by (vm_compute; reflexivity).
  eexists _, _, _. split; [exact E|]. split; [exact Hc|].
  destruct (readIfd_image_keys _ _ _ _ _ E) as (tagCount & s0' & Hc' & Hsize & Hkeys).
  rewrite Hc in Hc'. injection Hc' as <- <-. split; assumption.
Defined.

Lemma readIfd_unknown_type_sample :
  Layer.readIfd 8 (Source.open Sample.badType Scenario.defaultChunk) = Throw TypeError.
Proof.
  apply (readIfd_unknown_type 8 _ 2 (Sample.cached Sample.badType Scenario.defaultChunk)
           1%nat (Sample.widthOnly 600)
           (Sample.cached Sample.badType Scenario.defaultChunk)
           257 (Sample.cached Sample.badType Scenario.defaultChunk)
           "ImageLength"%string
           13 (Sample.cached Sample.badType Scenario.defaultChunk)
           1 (Sample.cached Sample.badType Scenario.defaultChunk));
    [vm_compute; reflexivity|simpl; lia|vm_compute; reflexivity
    |vm_compute; reflexivity|reflexivity|vm_compute; reflexivity
    |vm_compute; reflexivity|reflexivity].
Defined.

Lemma init_first_ifd_past_header_far :
  Layer.init 4 (Layer.new (Source.open Sample.farIfd 32)) = Throw OffsetOutOfRangeHeader.
Proof.
  apply (init_first_ifd_past_header Sample.farIfd 32 4).
  - lia.
  - vm_compute. lia.
  - vm_compute; reflexivity.
  - vm_compute; reflexivity.
  - vm_compute; reflexivity.
Defined.

Lemma getTileRaw_missing_z_iff_S6 :
  Scenario.loaded Scenario.S6 Scenario.defaultChunk
    = Some (Sample.layerOf Scenario.S6 Scenario.defaultChunk) /\
  Layer.getTileRaw (Num.of_Z 0) (Num.of_Z 0) (Num.of_Z 1)
    (Sample.layerOf Scenario.S6 Scenario.defaultChunk)
    = Throw (MissingZ (Num.of_Z 1)) /\
  Layer.getTileRaw (Num.of_Z 0) (Num.of_Z 0) (Num.of_Z (-1))
    (Sample.layerOf Scenario.S6 Scenario.defaultChunk)
    = Throw (MissingZ (Num.of_Z (-1))).
Proof.
  assert (Hlen : length (images (Sample.layerOf Scenario.S6 Scenario.defaultChunk))
                 = 1%nat) by (vm_compute; reflexivity).
  split; [vm_compute; reflexivity|]. split.
  - apply (proj2 (getTileRaw_missing_z_iff (Num.of_Z 0) (Num.of_Z 0) 1 _ ltac:(lia))).
    right. rewrite Hlen. simpl. lia.
  - apply (proj2 (getTileRaw_missing_z_iff (Num.of_Z 0) (Num.of_Z 0) (-1) _ ltac:(lia))).
    left. lia.
Defined.

Lemma getTileRaw_untiled_stripped :
  Scenario.loaded Sample.stripped Scenario.defaultChunk
    = Some (Sample.layerOf Sample.stripped Scenario.defaultChunk) /\
  Layer.getTileRaw (Num.of_Z 0) (Num.of_Z 0) (Num.of_Z 0)
    (Sample.layerOf Sample.stripped Scenario.defaultChunk) = Throw TypeError.
Proof.
  split; [vm_compute; reflexivity|].
  apply (getTileRaw_untiled _ _ _ _
           (Sample.firstImage (Sample.layerOf Sample.stripped Scenario.defaultChunk))
           (JStr "none") Num.nan); vm_compute; reflexivity.
Defined.

Lemma loaded_wf bytes chunk l :
  0 < chunk -> Scenario.loaded bytes chunk = Some l -> wf (source l).
Proof.
  intros Hc. unfold Scenario.loaded.
  destruct (Layer.init 8 _) as [[u l']| | |] eqn:E; try discriminate.
  intros [= <-]. destruct (open_wf bytes chunk Hc) as [Hwf _].
  exact (proj1 (init_keeps 8 (Layer.new (Source.open bytes chunk)) u l' Hwf E)).
Qed.

Lemma getTileRaw_returns_file_range_S6 :
  exists l',
    Layer.getTileRaw (Num.of_Z 1) (Num.of_Z 0) (Num.of_Z 0)
      (Sample.layerOf Scenario.S6 Scenario.defaultChunk)
      = Ok (Layer.mkTile (JStr "image/webp") [0xA1; 0xA1], l') /\
    images l' = images (Sample.layerOf Scenario.S6 Scenario.defaultChunk).
Proof.
  assert (El : Scenario.loaded Scenario.S6 Scenario.defaultChunk
               = Some (Sample.layerOf Scenario.S6 Scenario.defaultChunk))
    by (vm_compute; reflexivity).
  assert (Hbytes : take (Z.to_nat 2)
                     (drop (Z.to_nat 129)
                        (backing (source (Sample.layerOf Scenario.S6 Scenario.defaultChunk))))
                   = [0xA1; 0xA1]) by (vm_compute; reflexivity).
  destruct (getTileRaw_returns_file_range (Num.of_Z 1) (Num.of_Z 0) (Num.of_Z 0)
              (Sample.layerOf Scenario.S6 Scenario.defaultChunk)
              (JStr "image/webp") (JNum (Num.of_Z 129)) (JNum (Num.of_Z 2)) 129 2)
    as (l' & Htile & _ & Himgs & _).
  - apply (loaded_wf Scenario.S6 Scenario.defaultChunk); [reflexivity|exact El].
  - vm_compute; reflexivity.
  - reflexivity.
  - reflexivity.
  - lia.
  - vm_compute. discriminate.
  - exists l'. rewrite Hbytes in Htile. split; assumption.
Defined.

Lemma tileRequest_first_row_S6 :
  Layer.tileRequest (images (Sample.layerOf Scenario.S6 Scenario.defaultChunk))
    (Num.of_Z 2) (Num.of_Z 0) (Num.of_Z 0)
    = Ok (JStr "image/webp", JNum (Num.of_Z 131), JNum (Num.of_Z 3)) /\
  Layer.tileRequest (images (Sample.layerOf Scenario.S6 Scenario.defaultChunk))
    (Num.of_Z 6) (Num.of_Z 0) (Num.of_Z 0)
    = Ok (JStr "image/webp", JUndefined, JUndefined) /\
  Layer.tileRequest (images (Sample.layerOf Scenario.S6 Scenario.defaultChunk))
    (Num.of_Z 7) (Num.of_Z 0) (Num.of_Z 0)
    = Throw (TileDoesNotExist (Num.of_Z 7) (Num.of_Z 0) (Num.of_Z 0)).
Proof.
  pose (l := Sample.layerOf Scenario.S6 Scenario.defaultChunk).
  pose (image := Sample.firstImage l).
  pose (offsets := Sample.elements (Layer.prop image "TileOffsets")).
  assert (Hlen : length offsets = 6%nat) by (vm_compute; reflexivity).
  assert (Hrow : forall k, 0 <= k < 2 ^ 53 ->
            Layer.tileRequest (images l) (Num.of_Z k) (Num.of_Z 0) (Num.of_Z 0) =
            if Z.of_nat (length offsets) <? k
            then Throw (TileDoesNotExist (Num.of_Z k) (Num.of_Z 0) (Num.of_Z 0))
            else
              let? byteCount :=
                JS.index (Layer.prop image "TileByteCounts") (Num.of_Z k) in
              Ok (JStr "image/webp", default JUndefined (offsets !! Z.to_nat k),
                  byteCount)).
  { intros k Hk.
    apply (tileRequest_first_row (images l) k (Num.of_Z 0) image (JStr "image/webp")
             (Num.div (Num.of_Z 400) (Num.of_Z 256)) offsets);
      [vm_compute; reflexivity|vm_compute; reflexivity|vm_compute; reflexivity
      |vm_compute; reflexivity|vm_compute; reflexivity|exact Hk|].
    rewrite Hlen. simpl. lia. }
  fold l. split_and!.
  - rewrite (Hrow 2) by lia. rewrite Hlen. vm_compute; reflexivity.
  - rewrite (Hrow 6) by lia. rewrite Hlen. vm_compute; reflexivity.
  - rewrite (Hrow 7) by lia. rewrite Hlen. reflexivity.
Defined.

Lemma tileCount_not_tiled_sample :
  NoFacade.isTiled Sample.untiledB = false /\
  exists tc,
    NoFacade.tileCount Sample.untiledB = Ok tc /\
    Num.is_finite (NoFacade.nx tc) = false /\
    Num.is_finite (NoFacade.total tc) = false.
Proof.
  split; [reflexivity|].
  apply (tileCount_not_tiled Sample.untiledB (Num.of_Z 600)
           (S754_infinity false)); reflexivity.
Defined.

Lemma resolution_by_class_geo :
  (WithFacade.resolution Scenario.geoA = Ok (Scenario.nums [2; -3; 0]) /\
   NoFacade.resolution Scenario.geoB = Ok (Scenario.nums [2; -3; 0]))
  /\ (WithFacade.resolution Scenario.bareA = Throw NoModelPixelScale /\
      NoFacade.resolution Scenario.bareB = Ok JNull).
Proof.
  split.
  - apply (proj1 (resolution_by_class Scenario.geoA Scenario.geoB eq_refl)
             (JNum (Num.of_Z 2)) (Num.of_Z 3) (JNum (Num.of_Z 0)) []).
    reflexivity.
  - apply (proj2 (resolution_by_class Scenario.bareA Scenario.bareB eq_refl)).
    reflexivity.
Defined.

Lemma bbox_null_against_throw_tied :
  NoFacade.bbox (NoFacade.mkImage Sample.tiedOnly 0 8) = Ok JNull /\
  WithFacade.bbox (WithFacade.mkImage tt 0 8 Sample.tiedOnly) = Throw NoModelPixelScale /\
  WithFacade.bbox Scenario.geoA = NoFacade.bbox Scenario.geoB /\
  WithFacade.bbox Scenario.geoA <> Ok JNull.
Proof.
  assert (Hcov : forall b, NoFacade.resolution b = Ok JNull \/
                           (exists r, NoFacade.resolution b = Ok (JArr r)) ->
                           NoFacade.resolution b <> Uncovered).
  { intros b [H|[r H]]; rewrite H; discriminate. }
  destruct (bbox_null_against_throw
              (WithFacade.mkImage tt 0 8 Sample.tiedOnly)
              (NoFacade.mkImage Sample.tiedOnly 0 8) eq_refl)
    as (Hiff & _ & _); [apply Hcov; left; reflexivity|].
  destruct (bbox_null_against_throw Scenario.geoA Scenario.geoB eq_refl)
    as (_ & Hsame & Hnn); [apply Hcov; right; eexists; reflexivity|].
  split; [reflexivity|]. split_and!.
  - destruct (proj1 Hiff eq_refl) as [H|H]; [discriminate H|exact H].
  - apply Hsame. discriminate.
  - exact Hnn.
Defined.

Lemma getTileName_injective_zero :
  ActionDumpTile.getTileName (JStr "image/webp") (Num.of_Z 3) (Num.of_Z 0) (Num.of_Z 12)
    = ActionDumpTile.FileName "000_012_z3.webp" /\
  ActionDumpTile.getTileName (JStr "image/webp") (Num.of_Z 3) (S754_zero true) (Num.of_Z 12)
    = ActionDumpTile.FileName "000_012_z3.webp" /\
  0 = 0 /\ 12 = 12 /\ 3 = 3.
Proof.
  split; [reflexivity|]. split; [reflexivity|].
  apply (getTileName_injective
           (JStr "image/webp") (Num.of_Z 3) (Num.of_Z 0) (Num.of_Z 12)
           (JStr "image/webp") (Num.of_Z 3) (S754_zero true) (Num.of_Z 12)
           "000_012_z3.webp"); reflexivity.
Defined.

Lemma getTileName_by_compression_samples :
  ActionDumpTile.getTileName (JStr "image/webp") (Num.of_Z 2) (Num.of_Z 7) (Num.of_Z 1234)
    = ActionDumpTile.FileName "007_1234_z2.webp" /\
  ActionDumpTile.getTileName (JStr "image/deflate") (Num.of_Z 2) (Num.of_Z 7) (Num.of_Z 1234)
    = ActionDumpTile.UnableToProcess (JStr "image/deflate") /\
  ActionDumpTile.getTileName JUndefined (Num.of_Z 2) (Num.of_Z 7) (Num.of_Z 1234)
    = ActionDumpTile.UnableToProcess JUndefined.
Proof.
  split_and!.
  - apply (proj1 (proj2 (proj2
             (getTileName_by_compression (JNum (Num.of_Z 50001)) (JStr "image/webp")
                (Num.of_Z 2) (Num.of_Z 7) (Num.of_Z 1234) "7" "1234" "2"
                eq_refl eq_refl eq_refl eq_refl)))).
    reflexivity.
  - apply (proj2 (proj2 (proj2
             (getTileName_by_compression (JNum (Num.of_Z 8)) (JStr "image/deflate")
                (Num.of_Z 2) (Num.of_Z 7) (Num.of_Z 1234) "7" "1234" "2"
                eq_refl eq_refl eq_refl eq_refl)))); discriminate.
  - apply (proj2 (proj2 (proj2
             (getTileName_by_compression (JNum (Num.of_Z 2)) JUndefined
                (Num.of_Z 2) (Num.of_Z 7) (Num.of_Z 1234) "7" "1234" "2"
                eq_refl eq_refl eq_refl eq_refl)))); discriminate.
Defined.
